(** * Grid pooling engines of trajnetbaselines/lstm/pooling.py

    A shallow embedding of [FastPooling] (the batched engine) and [Pooling]
    (the per-agent engine), and the properties of the grid descriptor they
    compute.

    Numbers.  A tensor entry is an exact rational or NaN: rounding of the
    32-bit floats is not represented, NaN is, because the per-agent engine
    tests for it.  Every arithmetic result is kept in lowest terms, so that
    two entries with the same value are the same term.

    Tensors.  A vector is a list, a matrix a list of rows.  An operation
    that raises in Python returns [inl] of the exception. *)

From Stdlib Require Import List ZArith QArith Qabs Qround Qreduction Lia Lqa Bool Arith.
Import ListNotations.

(** ** Exceptions *)

Inductive exn : Type :=
| ZeroDivisionError   (* Python scalar division by zero *)
| RuntimeError        (* torch: shapes, sizes, empty stack *)
| IndexError          (* torch: index or mask out of bounds *)
| TypeError           (* Python: subscript of None *)
| NonFinite.          (* a value outside the number model: the integer
                         conversion of NaN, a quotient by a zero step *)

Definition res (A : Type) : Type := (exn + A)%type.

Definition ret {A} (x : A) : res A := inr x.
Definition raise {A} (e : exn) : res A := inl e.
Definition bind {A B} (c : res A) (k : A -> res B) : res B :=
  match c with
  | inl e => inl e
  | inr x => k x
  end.

Notation "x <- c ;; k" := (bind c (fun x => k))
  (at level 61, c at next level, right associativity).

Fixpoint mapM {A B} (f : A -> res B) (l : list A) : res (list B) :=
  match l with
  | [] => ret []
  | x :: t => y <- f x ;; ys <- mapM f t ;; ret (y :: ys)
  end.

(** ** Numbers *)

Module Num.

Definition num : Type := option Q.

Definition NaN : num := None.
Definition fin (q : Q) : num := Some (Qred q).
Definition zero : num := Some 0%Q.
Definition one : num := Some 1%Q.

Definition lift2 (f : Q -> Q -> Q) (a b : num) : num :=
  match a, b with
  | Some x, Some y => Some (Qred (f x y))
  | _, _ => None
  end.

Definition add : num -> num -> num := lift2 Qplus.
Definition sub : num -> num -> num := lift2 Qminus.
Definition mul : num -> num -> num := lift2 Qmult.
(** tensor / scalar, the scalar known to be non-zero *)
Definition divq (a : num) (d : Q) : num := lift2 Qdiv a (Some d).

Definition isnan (a : num) : bool :=
  match a with None => true | Some _ => false end.

Definition Qltb (x y : Q) : bool :=
  match (x ?= y)%Q with Lt => true | _ => false end.

(** [a < q] and [a >= q]: a comparison with NaN is false *)
Definition ltb (a : num) (q : Q) : bool :=
  match a with Some x => Qltb x q | None => false end.
Definition geb (a : num) (q : Q) : bool :=
  match a with Some x => Qle_bool q x | None => false end.

(** torch.sign: NaN gives 0 *)
Definition sign (a : num) : num :=
  match a with
  | None => zero
  | Some x => match (x ?= 0)%Q with
              | Lt => Some (-1)%Q
              | Eq => zero
              | Gt => one
              end
  end.
Definition abs (a : num) : num :=
  match a with Some x => Some (Qred (Qabs x)) | None => None end.
Definition relu (a : num) : num :=
  match a with
  | Some x => if Qltb x 0 then zero else Some (Qred x)
  | None => None
  end.

(** [.long()]: truncation towards zero; NaN has no integer value *)
Definition long (a : num) : res Z :=
  match a with
  | Some x => ret (Z.quot (Qnum x) (Zpos (Qden x)))
  | None => raise NonFinite
  end.

Definition sum (l : list num) : num := fold_left add l zero.

End Num.
Import Num.

(** A position is a row of two entries. *)
Definition pos : Type := (num * num)%type.
Definition vec : Type := list num.
Definition matrix : Type := list vec.

Definition psub (a b : pos) : pos := (sub (fst a) (fst b), sub (snd a) (snd b)).
Definition pos_row (p : pos) : vec := [fst p; snd p].
Definition vsub (a b : vec) : vec := map (fun xy => sub (fst xy) (snd xy)) (combine a b).

(** ** Tensor operations used by the engines *)

Module Torch.

(** torch.zeros(size) and torch.ones(size): a negative size raises *)
Definition full (x : num) (size : Z) : res vec :=
  if (size <? 0)%Z then raise RuntimeError else ret (repeat x (Z.to_nat size)).
Definition zeros : Z -> res vec := full zero.

Definition full2 (x : num) (rows cols : Z) : res matrix :=
  if ((rows <? 0) || (cols <? 0))%Z then raise RuntimeError
  else ret (repeat (repeat x (Z.to_nat cols)) (Z.to_nat rows)).
Definition zeros2 : Z -> Z -> res matrix := full2 zero.
Definition ones2 : Z -> Z -> res matrix := full2 one.

(** [t[mask]] with a boolean mask over the first dimension *)
Definition select {A} (mask : list bool) (t : list A) : list A :=
  map snd (filter fst (combine mask t)).
Definition masked {A} (mask : list bool) (t : list A) : res (list A) :=
  if (length mask =? length t)%nat then ret (select mask t)
  else raise IndexError.

(** [a - b] on (N x 2) tensors, with broadcasting of a one-row operand *)
Definition sub_rows (a b : list pos) : res (list pos) :=
  if (length a =? length b)%nat
  then ret (map (fun ab => psub (fst ab) (snd ab)) (combine a b))
  else match a, b with
       | _, [y] => ret (map (fun x => psub x y) a)
       | [x], _ => ret (map (fun y => psub x y) b)
       | _, _ => raise RuntimeError
       end.

(** [l[k] = x] *)
Fixpoint update {A} (k : nat) (x : A) (l : list A) : list A :=
  match l, k with
  | [], _ => []
  | _ :: t, O => x :: t
  | y :: t, S k' => y :: update k' x t
  end.

(** an index into a dimension of the given size; negative ones wrap once *)
Definition norm_index (size : nat) (i : Z) : res nat :=
  if ((0 <=? i) && (i <? Z.of_nat size))%Z then ret (Z.to_nat i)
  else if ((- Z.of_nat size <=? i) && (i <? 0))%Z
       then ret (Z.to_nat (i + Z.of_nat size))
       else raise IndexError.

(** a value row assigned into a row of width [w]: same width, or one entry *)
Definition broadcast_row (w : nat) (v : vec) : res vec :=
  if (length v =? w)%nat then ret v
  else match v with
       | [x] => ret (repeat x w)
       | _ => raise RuntimeError
       end.

(** [occ[oi] = values] on a (cells x w) tensor: the assignments are made
    in index order, so of two writes to one cell the later one stays *)
Fixpoint index_put (w : nat) (occ : matrix) (ivs : list (Z * vec)) : res matrix :=
  match ivs with
  | [] => ret occ
  | (i, v) :: rest =>
      k <- norm_index (length occ) i ;;
      row <- broadcast_row w v ;;
      index_put w (update k row occ) rest
  end.

(** [l.reshape(r, c, ...)] on a list of rows; [c = -1] is inferred from
    the number of rows, which torch refuses when [r] is 0 *)
Definition rows_of {A} (r c : nat) (l : list A) : list (list A) :=
  map (fun i => firstn c (skipn (i * c) l)) (seq 0 r).

Definition reshape {A} (r c : Z) (l : list A) : res (list (list A)) :=
  if (r <? 0)%Z then raise RuntimeError
  else if (c =? -1)%Z then
    if (r =? 0)%Z then raise RuntimeError
    else if (Z.of_nat (length l) mod r =? 0)%Z
         then ret (rows_of (Z.to_nat r) (length l / Z.to_nat r) l)
         else raise RuntimeError
  else if (c <? 0)%Z then raise RuntimeError
  else if (r * c =? Z.of_nat (length l))%Z
       then ret (rows_of (Z.to_nat r) (Z.to_nat c) l)
       else raise RuntimeError.

(** [torch.transpose(occ, 0, 1).view(1, -1, side, side)] of a
    (side*side x channels) tensor: one side x side grid per channel *)
Definition channel (c : nat) (occ : matrix) : vec :=
  map (fun row => nth c row zero) occ.

Definition view_grids (channels side : Z) (occ : matrix) : res (list matrix) :=
  if ((side <=? 0) || (channels <? 0))%Z then raise RuntimeError
  else if (Z.of_nat (length occ) =? side * side)%Z
       then ret (map (fun c => rows_of (Z.to_nat side) (Z.to_nat side) (channel c occ))
                     (seq 0 (Z.to_nat channels)))
       else raise RuntimeError.

(** entry (r, c) of a grid padded with zeros on every side *)
Definition get2 (g : matrix) (r c : Z) : num :=
  if ((r <? 0) || (c <? 0))%Z then zero
  else nth (Z.to_nat c) (nth (Z.to_nat r) g []) zero.

Definition zrange (k : Z) : list Z := map Z.of_nat (seq 0 (Z.to_nat k)).

(** the window sum at output cell (i, j) *)
Definition window (g : matrix) (k s p i j : Z) : num :=
  sum (flat_map (fun a => map (fun b => get2 g (i * s + a - p) (j * s + b - p))
                              (zrange k))
                (zrange k)).

(** torch.nn.functional.avg_pool2d(g, k, s, p, count_include_pad=True) on
    one channel, floor mode: every window is divided by k*k *)
Definition avg_pool2d (k s p : Z) (g : matrix) : res matrix :=
  let h := Z.of_nat (length g) in
  let w := Z.of_nat (length (hd [] g)) in
  if ((k <=? 0) || (s <=? 0) || (p <? 0) || (k <? 2 * p))%Z then raise RuntimeError
  else if ((h + 2 * p - k <? 0) || (w + 2 * p - k <? 0))%Z then raise RuntimeError
  else ret (map (fun i => map (fun j => divq (window g k s p i j) (inject_Z (k * k)))
                              (zrange ((w + 2 * p - k) / s + 1)))
                (zrange ((h + 2 * p - k) / s + 1))).

(** torch.nn.functional.lp_pool2d(g, 1, k):
    avg_pool2d(g.pow(1), k), then (sign(out) * relu(abs(out))).mul(k*k).pow(1) *)
Definition lp_pool2d_1 (k : Z) (g : matrix) : res matrix :=
  out <- avg_pool2d k k 0 g ;;
  ret (map (map (fun o => mul (mul (sign o) (relu (abs o))) (fin (inject_Z (k * k))))) out).

(** [.view(-1)] of a (channels x rows x cols) tensor *)
Definition flatten (gs : list matrix) : vec := concat (map (@concat num) gs).

(** torch.stack(rows, dim=0): refuses an empty list and unequal shapes *)
Definition stack (rows : list vec) : res matrix :=
  match rows with
  | [] => raise RuntimeError
  | r :: t => if forallb (fun r' => (length r' =? length r)%nat) t
              then ret rows else raise RuntimeError
  end.

(** inverse one-hot mask: [one_cold i n] *)
Definition one_cold (i n : nat) : list bool :=
  map (fun j => negb (j =? i)%nat) (seq 0 n).

(** [~torch.eye(n).bool()], row after row *)
Definition not_eye (n : nat) : list bool :=
  flat_map (fun i => one_cold i n) (seq 0 n).

End Torch.
Import Torch.

(** ** The mathematical functions of the front mode

    [np.pi], [np.arctan2], [math.cos] and [math.sin] are taken as given
    functions on finite numbers. *)

Record MathLib : Type := {
  pi : Q;
  arctan2 : Q -> Q -> Q;
  cos : Q -> Q;
  sin : Q -> Q
}.

Definition lift1 (f : Q -> Q) (a : num) : num :=
  match a with Some x => Some (Qred (f x)) | None => None end.

(** ** Configuration: the attributes set by [__init__]

    [FastPooling.__init__] and [Pooling.__init__] are the same text. *)

Inductive variant : Type := Occupancy | Directional | Social.

Record Engine : Type := {
  cell_side : Q;
  n : Z;
  type_ : variant;
  pool_size : Z;
  blur_size : Z;
  pooling_dim : Z;
  front : bool;
  out_dim : Z;
  (** Sequential(Linear(n * n * pooling_dim, out_dim), ReLU()) with the
      weights drawn at construction *)
  embedding : matrix -> res matrix
}.

(** The keyword arguments of [__init__]; [None] is an argument left out. *)
Record InitArgs : Type := {
  arg_cell_side : option Q;
  arg_n : option Z;
  arg_hidden_dim : option Z;
  arg_out_dim : option Z;
  arg_type_ : option variant;
  arg_pool_size : option Z;
  arg_blur_size : option Z;
  arg_front : option bool
}.

Definition default {A} (d : A) (o : option A) : A :=
  match o with Some x => x | None => d end.

(** torch.nn.Linear(in_features, out_features) allocates an
    (out_features x in_features) weight: a negative size raises *)
Definition Linear_ok (in_features out_features : Z) : bool :=
  ((0 <=? in_features) && (0 <=? out_features))%Z.

Definition init (a : InitArgs) (layer : matrix -> res matrix) : res Engine :=
  let cell_side := default 2%Q (arg_cell_side a) in
  let n := default 4%Z (arg_n a) in
  let hidden_dim := default 128%Z (arg_hidden_dim a) in
  let type_ := default Occupancy (arg_type_ a) in
  let pool_size := default 8%Z (arg_pool_size a) in
  let blur_size := default 0%Z (arg_blur_size a) in
  let front := default false (arg_front a) in
  let pooling_dim :=
    match type_ with
    | Occupancy => 1%Z
    | Directional => 2%Z
    | Social => hidden_dim
    end in
  let out_dim := match arg_out_dim a with None => hidden_dim | Some d => d end in
  if Linear_ok (n * n * pooling_dim) out_dim
  then ret {| cell_side := cell_side; n := n; type_ := type_;
              pool_size := pool_size; blur_size := blur_size;
              pooling_dim := pooling_dim; front := front;
              out_dim := out_dim; embedding := layer |}
  else raise RuntimeError.

(** ** Lines that the two [occupancy] methods share word for word *)

(** [self.n * self.pool_size], the number of sub-cells per axis *)
Definition side (e : Engine) : Z := (n e * pool_size e)%Z.

(** [self.cell_side / self.pool_size], a Python division; a zero step
    would make every quotient infinite or NaN *)
Definition step (e : Engine) : res Q :=
  if (pool_size e =? 0)%Z then raise ZeroDivisionError
  else let s := (cell_side e / inject_Z (pool_size e))%Q in
       if Qeq_bool s 0 then raise NonFinite else ret s.

(** [self.n * self.pool_size / 2] *)
Definition half (e : Engine) : Q := (inject_Z (side e) / 2)%Q.

(** [relative / step + offset] on one coordinate *)
Definition scaled (s : Q) (offset : Q) (c : num) : num :=
  add (divq c s) (fin offset).

(** [(oij < 0) + (oij >= self.n * self.pool_size)] on one coordinate *)
Definition violation (e : Engine) (c : num) : bool :=
  ltb c 0 || geb c (inject_Z (side e)).

Definition b2z (b : bool) : Z := if b then 1%Z else 0%Z.

(** [torch.sum(..., dim)] over the two coordinates, and [== 0] *)
Definition range_violations (e : Engine) (o : pos) : Z :=
  (b2z (violation e (fst o)) + b2z (violation e (snd o)))%Z.
Definition range_mask (e : Engine) (o : pos) : bool :=
  (range_violations e o =? 0)%Z.

(** [oij[:, 0] * self.n * self.pool_size + oij[:, 1]] *)
Definition linear (e : Engine) (ij : Z * Z) : Z :=
  (fst ij * n e * pool_size e + snd ij)%Z.

Definition long2 (o : pos) : res (Z * Z) :=
  i <- long (fst o) ;; j <- long (snd o) ;; ret (i, j).

(** [lp_pool2d(occ_blurred, 1, self.pool_size)] on every channel, then
    [.view(-1)]; pooling refuses a tensor without channels *)
Definition pool_flat (e : Engine) (occ_blurred : list matrix) : res vec :=
  match occ_blurred with
  | [] => raise RuntimeError
  | _ => occ_summed <- mapM (lp_pool2d_1 (pool_size e)) occ_blurred ;;
         ret (flatten occ_summed)
  end.

(** ** FastPooling: all agents in one pass *)

Module FastPooling.

(** [unfolded - t.unsqueeze(1)] with [unfolded = t.unsqueeze(0).repeat(n, 1, 1)]:
    entry (i, j) is [t[j] - t[i]] *)
Definition pairwise (t : list pos) : list (list pos) :=
  map (fun ti => map (fun tj => psub tj ti) t) t.

(** [t[~torch.eye(n).bool()].reshape(n, n-1, ...)] on an (n x n x ...) tensor *)
Definition delete_diagonal {A} (n_ : nat) (t : list (list A)) : res (list (list A)) :=
  flat <- masked (not_eye n_) (concat t) ;;
  reshape (Z.of_nat n_) (Z.of_nat n_ - 1) flat.

(** one neighbour entry: [oij], the mask, the zeroing of [oij] and of the
    value where the mask is false, [.long()] and [oi] *)
Definition entry (e : Engine) (s : Q) (rv : pos * vec) : res (Z * vec) :=
  let oij := (scaled s (half e) (fst (fst rv)), scaled s (half e) (snd (fst rv))) in
  let m := range_mask e oij in
  let oij := if m then oij else (zero, zero) in
  let v := if m then snd rv else map (fun _ => zero) (snd rv) in
  ij <- long2 oij ;;
  ret (linear e ij, v).

(** [oij], [range_mask], the two zeroings, [.long()] and [oi] for the
    neighbours of one ego *)
Definition entries (e : Engine) (s : Q) (rel : list pos) (values : matrix)
  : res (list (Z * vec)) :=
  if (length rel =? length values)%nat
  then mapM (entry e s) (combine rel values)
  else raise IndexError.

(** the dense sub-grid of one ego: [occ] after the scatter *)
Definition dense_row (e : Engine) (ivs : list (Z * vec)) : res matrix :=
  occ <- zeros2 (n e ^ 2 * pool_size e ^ 2) (pooling_dim e) ;;
  index_put (Z.to_nat (pooling_dim e)) occ ivs.

(** transpose, view and pooling of one dense sub-grid *)
Definition pooled (e : Engine) (occ : matrix) : res vec :=
  occ_2d <- view_grids (pooling_dim e) (side e) occ ;;
  let occ_blurred := occ_2d in
  pool_flat e occ_blurred.

Definition ego_row (e : Engine) (ivs : list (Z * vec)) : res vec :=
  occ <- dense_row e ivs ;;
  pooled e occ.

(** The batched tensor operations act on the rows of the egos one by one. *)
Definition occupancy (e : Engine) (obs : list pos)
           (other_values : option (list matrix)) : res matrix :=
  let n_ := length obs in
  if (n_ =? 1)%nat then
    z <- zeros (n e * n e * pooling_dim e) ;; ret [z]
  else
    relative <- delete_diagonal n_ (pairwise obs) ;;
    other_values <-
      match other_values with
      | None => row <- ones2 (Z.of_nat n_ - 1) (pooling_dim e) ;; ret (repeat row n_)
      | Some v => ret v
      end ;;
    s <- step e ;;
    if negb (length relative =? length other_values)%nat then raise IndexError else
    oi <- mapM (fun rv => entries e s (fst rv) (snd rv)) (combine relative other_values) ;;
    mapM (ego_row e) oi.

Definition occupancies (e : Engine) (obs : list pos) : res matrix :=
  occupancy e obs None.

Definition directional (e : Engine) (obs1 obs2 : list pos) : res matrix :=
  let n_ := length obs2 in
  if (n_ =? 1)%nat then occupancy e obs2 None
  else
    vel <- sub_rows obs2 obs1 ;;
    relative <- delete_diagonal n_ (pairwise vel) ;;
    occupancy e obs2 (Some (map (map pos_row) relative)).

(** [hidden_state.repeat(n, 1).view(n, n, -1)]: the rows repeated n times,
    then regrouped from the flat sequence of entries *)
Definition repeat_view (n_ : nat) (hidden_state : matrix) : res (list matrix) :=
  let flat := concat (concat (repeat hidden_state n_)) in
  cells <- reshape (Z.of_nat (n_ * n_)) (-1) flat ;;
  ret (rows_of n_ n_ cells).

Definition social (e : Engine) (hidden_state : matrix) (obs : list pos) : res matrix :=
  let n_ := length obs in
  if (n_ =? 1)%nat then occupancy e obs None
  else
    hidden_state_grid <- repeat_view n_ hidden_state ;;
    hidden_state_grid <- delete_diagonal n_ hidden_state_grid ;;
    occupancy e obs (Some hidden_state_grid).

(** the grid handed to the embedding *)
Definition grid (e : Engine) (hidden_state : matrix) (obs1 obs2 : list pos)
  : res matrix :=
  match type_ e with
  | Occupancy => occupancies e obs2
  | Directional => directional e obs1 obs2
  | Social => social e hidden_state obs2
  end.

Definition forward (e : Engine) (hidden_state : matrix) (obs1 obs2 : list pos)
  : res matrix :=
  g <- grid e hidden_state obs1 obs2 ;;
  embedding e g.

End FastPooling.

(** ** Pooling: one agent at a time *)

Module Pooling.

Definition nan_pos : pos := (NaN, NaN).

(** [t[i]] *)
Definition item {A} (i : nat) (t : list A) : res A :=
  match nth_error t i with
  | Some x => ret x
  | None => raise IndexError
  end.

(** [ct] and [st] of the front mode, from the ego's own displacement *)
Definition heading (M : MathLib) (xy past_xy : pos) : num * num :=
  let diff := (sub (snd xy) (snd past_xy), sub (fst xy) (fst past_xy)) in
  let velocity := lift2 (arctan2 M) (fst diff) (snd diff) in
  let theta := sub (fin (pi M / 2)) velocity in
  (lift1 (cos M) theta, lift1 (sin M) theta).

(** one row of [torch.einsum('tc,ci->ti', relative_pos, r)] with
    [r = [[ct, st], [-st, ct]]] *)
Definition einsum_tc_ci (ct st : num) (p : pos) : pos :=
  let r00 := ct in let r01 := st in
  let r10 := lift1 Qopp st in let r11 := ct in
  (add (mul (fst p) r00) (mul (snd p) r10),
   add (mul (fst p) r01) (mul (snd p) r11)).

(** [oij] of one observed neighbour; the tensor operations of the source
    apply it to every row of [oxy] *)
Definition coordinate (M : MathLib) (e : Engine) (xy : pos) (past_xy : option pos)
  : res (pos -> pos) :=
  if negb (front e) then
    s <- step e ;;
    ret (fun p => let d := psub p xy in
                  (scaled s (half e) (fst d), scaled s (half e) (snd d)))
  else
    match past_xy with
    | None => raise TypeError
    | Some past_xy =>
        let cs := heading M xy past_xy in
        s <- step e ;;
        ret (fun p => let relative_pos := einsum_tc_ci (fst cs) (snd cs) (psub p xy) in
                      (scaled s (half e) (fst relative_pos), scaled s 0 (snd relative_pos)))
    end.

Definition grid_coordinates (M : MathLib) (e : Engine) (xy : pos) (oxy : list pos)
           (past_xy : option pos) : res (list pos) :=
  c <- coordinate M e xy past_xy ;; ret (map c oxy).

(** The dense sub-grid [occ] after the scatter, from the observed
    neighbours on; [None] stands for an early return of an all-zero
    descriptor. *)
Definition dense_observed (M : MathLib) (e : Engine) (xy : pos) (oxy : list pos)
           (other_values : matrix) (past_xy : option pos) : res (option matrix) :=
  if (length oxy =? 0)%nat then ret None
  else
    oij <- grid_coordinates M e xy oxy past_xy ;;
    let range_mask := map (range_mask e) oij in
    oij <- mapM long2 (select range_mask oij) ;;
    other_values <- masked range_mask other_values ;;
    if (length oij =? 0)%nat then ret None
    else
      let oi := map (linear e) oij in
      occ <- zeros2 (n e ^ 2 * pool_size e ^ 2) (pooling_dim e) ;;
      occ <- index_put (Z.to_nat (pooling_dim e)) occ (combine oi other_values) ;;
      ret (Some occ).

Definition dense (M : MathLib) (e : Engine) (xy : pos) (other_xy : option (list pos))
           (other_values : option matrix) (past_xy : option pos)
  : res (option matrix) :=
  match other_xy with
  | None => ret None
  | Some other_xy =>
      if isnan (fst xy) || (length other_xy =? 0)%nat then ret None
      else
        other_values <-
          match other_values with
          | None => ones2 (Z.of_nat (length other_xy)) 1
          | Some v => ret v
          end ;;
        let mask := map (fun p => negb (isnan (fst p))) other_xy in
        let oxy := select mask other_xy in
        other_values <- masked mask other_values ;;
        dense_observed M e xy oxy other_values past_xy
  end.

(** transpose, view, optional blurring and pooling of the dense sub-grid *)
Definition pooled (e : Engine) (occ : matrix) : res vec :=
  occ_2d <- view_grids (pooling_dim e) (side e) occ ;;
  occ_blurred <-
    (if (blur_size e =? 0)%Z then ret occ_2d
     else mapM (avg_pool2d (blur_size e) 1 (Z.quot (blur_size e) 2)) occ_2d) ;;
  pool_flat e occ_blurred.

Definition occupancy (M : MathLib) (e : Engine) (xy : pos) (other_xy : option (list pos))
           (other_values : option matrix) (past_xy : option pos) : res vec :=
  d <- dense M e xy other_xy other_values past_xy ;;
  match d with
  | None => zeros (n e * n e * pooling_dim e)
  | Some occ => pooled e occ
  end.

(** the ego's row in the list comprehension of each method *)
Definition occupancies_row (M : MathLib) (e : Engine) (obs : list pos) (i : nat) : res vec :=
  occupancy M e (nth i obs nan_pos) (Some (select (one_cold i (length obs)) obs)) None None.

Definition occupancies (M : MathLib) (e : Engine) (obs : list pos) : res matrix :=
  rows <- mapM (occupancies_row M e obs) (seq 0 (length obs)) ;;
  stack rows.

(** [(obs2 - obs1)[one_cold(i, n)] - (obs2 - obs1)[i]] *)
Definition relative_velocity (obs1 obs2 : list pos) (i : nat) : res matrix :=
  vel <- sub_rows obs2 obs1 ;;
  others <- masked (one_cold i (length obs2)) vel ;;
  own <- item i vel ;;
  ret (map (fun v => pos_row (psub v own)) others).

Definition directional_row (M : MathLib) (e : Engine) (obs1 obs2 : list pos) (i : nat)
  : res vec :=
  values <- relative_velocity obs1 obs2 i ;;
  occupancy M e (nth i obs2 nan_pos) (Some (select (one_cold i (length obs2)) obs2))
            (Some values) None.

Definition directional (M : MathLib) (e : Engine) (obs1 obs2 : list pos) : res matrix :=
  if (length obs2 =? 1)%nat then
    z <- occupancy M e (nth 0 obs2 nan_pos) None None None ;; ret [z]
  else
    rows <- mapM (directional_row M e obs1 obs2) (seq 0 (length obs2)) ;;
    stack rows.

Definition social_row (M : MathLib) (e : Engine) (hidden_state : matrix) (obs : list pos)
           (i : nat) : res vec :=
  values <- masked (one_cold i (length obs)) hidden_state ;;
  occupancy M e (nth i obs nan_pos) (Some (select (one_cold i (length obs)) obs))
            (Some values) None.

Definition social (M : MathLib) (e : Engine) (hidden_state : matrix) (obs : list pos)
  : res matrix :=
  rows <- mapM (social_row M e hidden_state obs) (seq 0 (length obs)) ;;
  stack rows.

(** Front *)
Definition front_occupancies_row (M : MathLib) (e : Engine) (obs obs1 : list pos) (i : nat)
  : res vec :=
  past <- item i obs1 ;;
  occupancy M e (nth i obs nan_pos) (Some (select (one_cold i (length obs)) obs))
            None (Some past).

Definition front_occupancies (M : MathLib) (e : Engine) (obs obs1 : list pos) : res matrix :=
  rows <- mapM (front_occupancies_row M e obs obs1) (seq 0 (length obs)) ;;
  stack rows.

Definition front_directional_row (M : MathLib) (e : Engine) (obs1 obs2 : list pos) (i : nat)
  : res vec :=
  values <- relative_velocity obs1 obs2 i ;;
  past <- item i obs1 ;;
  occupancy M e (nth i obs2 nan_pos) (Some (select (one_cold i (length obs2)) obs2))
            (Some values) (Some past).

Definition front_directional (M : MathLib) (e : Engine) (obs1 obs2 : list pos) : res matrix :=
  if (length obs2 =? 1)%nat then
    z <- occupancy M e (nth 0 obs2 nan_pos) None None None ;; ret [z]
  else
    rows <- mapM (front_directional_row M e obs1 obs2) (seq 0 (length obs2)) ;;
    stack rows.

Definition front_social_row (M : MathLib) (e : Engine) (hidden_state : matrix)
           (obs obs1 : list pos) (i : nat) : res vec :=
  values <- masked (one_cold i (length obs)) hidden_state ;;
  past <- item i obs1 ;;
  occupancy M e (nth i obs nan_pos) (Some (select (one_cold i (length obs)) obs))
            (Some values) (Some past).

Definition front_social (M : MathLib) (e : Engine) (hidden_state : matrix)
           (obs obs1 : list pos) : res matrix :=
  rows <- mapM (front_social_row M e hidden_state obs obs1) (seq 0 (length obs)) ;;
  stack rows.

(** the grid handed to the embedding *)
Definition grid (M : MathLib) (e : Engine) (hidden_state : matrix) (obs1 obs2 : list pos)
  : res matrix :=
  if negb (front e) then
    match type_ e with
    | Occupancy => occupancies M e obs2
    | Directional => directional M e obs1 obs2
    | Social => social M e hidden_state obs2
    end
  else
    match type_ e with
    | Occupancy => front_occupancies M e obs2 obs1
    | Directional => front_directional M e obs1 obs2
    | Social => front_social M e hidden_state obs2 obs1
    end.

Definition forward (M : MathLib) (e : Engine) (hidden_state : matrix) (obs1 obs2 : list pos)
  : res matrix :=
  g <- grid M e hidden_state obs1 obs2 ;;
  embedding e g.

End Pooling.

(** ** The specification's grid indexer, in its own words

    [cell = floor(o / (cell_side / pool_size) + n * pool_size / 2)] on each
    axis, in range when both coordinates lie in [[0, n * pool_size)], linear
    index [cell_x * (n * pool_size) + cell_y]. *)



Definition spec_index (cx cy : Z) (e : Engine) : Z :=
  (cx * (n e * pool_size e) + cy)%Z.


(** the rotation of a vector by the front-mode matrix, written out *)
Definition theta (M : MathLib) (dx dy : Q) : Q := (pi M / 2 - arctan2 M dy dx)%Q.

(** ** Scenes and configurations *)

(** an engine that differs from [e] in [front] and [blur_size] only *)
Definition with_front_blur (e : Engine) (f : bool) (b : Z) : Engine :=
  {| cell_side := cell_side e; n := n e; type_ := type_ e;
     pool_size := pool_size e; blur_size := b; pooling_dim := pooling_dim e;
     front := f; out_dim := out_dim e; embedding := embedding e |}.

(** the descriptor of ego [i]: the [i]-th element of the list that
    [Pooling.grid] stacks *)
Definition ego_descriptor (M : MathLib) (e : Engine) (hidden_state : matrix)
           (obs1 obs2 : list pos) (i : nat) : res vec :=
  if negb (front e) then
    match type_ e with
    | Occupancy => Pooling.occupancies_row M e obs2 i
    | Directional =>
        if (length obs2 =? 1)%nat
        then Pooling.occupancy M e (nth 0 obs2 Pooling.nan_pos) None None None
        else Pooling.directional_row M e obs1 obs2 i
    | Social => Pooling.social_row M e hidden_state obs2 i
    end
  else
    match type_ e with
    | Occupancy => Pooling.front_occupancies_row M e obs2 obs1 i
    | Directional =>
        if (length obs2 =? 1)%nat
        then Pooling.occupancy M e (nth 0 obs2 Pooling.nan_pos) None None None
        else Pooling.front_directional_row M e obs1 obs2 i
    | Social => Pooling.front_social_row M e hidden_state obs2 obs1 i
    end.

(** a position with both coordinates observed *)
Definition observed (p : pos) : bool := negb (isnan (fst p)) && negb (isnan (snd p)).
(** a position that is observed or is masked by its first coordinate *)
Definition maskable (p : pos) : bool := isnan (fst p) || negb (isnan (snd p)).

Definition P (x y : Q) : pos := (fin x, fin y).
(** an observed position with the coordinates as given *)
Definition seen (x y : Q) : pos := (Some x, Some y).

(** the identity in place of the embedding layer *)
Definition plain (m : matrix) : res matrix := ret m.

Definition engine (cs : Q) (n_ : Z) (ty : variant) (ps bl pd : Z) (fr : bool) : Engine :=
  {| cell_side := cs; n := n_; type_ := ty; pool_size := ps; blur_size := bl;
     pooling_dim := pd; front := fr; out_dim := 128; embedding := plain |}.

(** A math library that is exact on the four axis headings: the angles
    0, pi/2, pi and -pi/2 and their cosines and sines.  Other arguments do
    not occur in the scenes below. *)
Definition axis_pi : Q := 3141592653589793 # 1000000000000000.

Definition axis_arctan2 (y x : Q) : Q :=
  match (x ?= 0)%Q, (y ?= 0)%Q with
  | Gt, Eq => 0
  | Eq, Gt => axis_pi / 2
  | Lt, Eq => axis_pi
  | Eq, Lt => - (axis_pi / 2)
  | _, _ => 0
  end.

Definition axis_cos (t : Q) : Q :=
  if Qeq_bool t 0 then 1
  else if Qeq_bool t axis_pi then -1
  else 0.

Definition axis_sin (t : Q) : Q :=
  if Qeq_bool t (axis_pi / 2) then 1
  else if Qeq_bool t (- (axis_pi / 2)) then -1
  else 0.

Definition axis_math : MathLib :=
  {| pi := axis_pi; arctan2 := axis_arctan2; cos := axis_cos; sin := axis_sin |}.



(** the neighbours of ego [i] in the scene [a ++ x :: b], on either side
    of [x], and the index of ego [i] once [x] is taken out *)
Definition before {A} (i : nat) (a : list A) : list A :=
  if (i <? length a)%nat then firstn i a ++ skipn (S i) a else a.
Definition after {A} (i : nat) (a b : list A) : list A :=
  if (i <? length a)%nat then b
  else firstn (i - length a - 1) b ++ skipn (i - length a) b.
Definition shift (k i : nat) : nat := if (i <? k)%nat then i else (i - 1)%nat.

(** [obs2 - obs1] on scenes of equal length, row by row *)
Definition rows_sub (a b : list pos) : list pos :=
  map (fun ab => psub (fst ab) (snd ab)) (combine a b).



(** the shape of a grid: [r] rows of [c] entries *)
Definition shaped (r c : nat) (g : matrix) : Prop :=
  length g = r /\ Forall (fun row => length row = c) g.

(** ** Well-formed configurations and scenes *)

(** the documented parameter ranges *)
Definition valid (e : Engine) : Prop :=
  (0 < cell_side e)%Q /\ (0 < n e)%Z /\ (0 < pool_size e)%Z /\ (0 < pooling_dim e)%Z.



(** the number of sub-cells of the dense grid *)
Definition cells (e : Engine) : nat := Z.to_nat (side e * side e).

(** the sub-cell of a grid coordinate: the floor on each axis *)
Definition floor2 (o : pos) : Z * Z :=
  match o with
  | (Some vx, Some vy) => (Qfloor vx, Qfloor vy)
  | _ => (0%Z, 0%Z)
  end.

(** value rows that the scatter accepts: as wide as the grid, or one entry *)
Definition fits (e : Engine) (v : vec) : Prop :=
  length v = Z.to_nat (pooling_dim e) \/ length v = 1%nat.


(** A scene that the per-agent engine accepts: every position is observed
    or masked by its first coordinate; the hidden states (social variant)
    and the previous positions (directional variant, front mode) have one
    row per agent; in front mode the previous positions are observed. *)
Definition scene_ok (e : Engine) (hidden_state : matrix) (obs1 obs2 : list pos) : Prop :=
  Forall (fun p => maskable p = true) obs2
  /\ (type_ e = Social ->
      length hidden_state = length obs2
      /\ Forall (fun v => length v = Z.to_nat (pooling_dim e)) hidden_state)
  /\ (type_ e = Directional -> length obs1 = length obs2)
  /\ (front e = true ->
      length obs1 = length obs2 /\ Forall (fun p => observed p = true) obs1).

(** A scene that the batched engine accepts: full observations. *)
Definition full_scene (e : Engine) (hidden_state : matrix) (obs1 obs2 : list pos) : Prop :=
  Forall (fun p => observed p = true) obs2
  /\ (type_ e = Social ->
      length hidden_state = length obs2
      /\ Forall (fun v => length v = Z.to_nat (pooling_dim e)) hidden_state)
  /\ (type_ e = Directional -> length obs1 = length obs2).

(** ** The batched scatter, entry by entry *)

(** the grid coordinate of an offset in the batched engine *)
Definition coord (e : Engine) (s : Q) (r : pos) : pos :=
  (scaled s (half e) (fst r), scaled s (half e) (snd r)).

(** what [FastPooling.entry] returns on an observed offset *)
Definition placed (e : Engine) (s : Q) (rv : pos * vec) : Z * vec :=
  if range_mask e (coord e s (fst rv))
  then (linear e (floor2 (coord e s (fst rv))), snd rv)
  else (0%Z, map (fun _ => zero) (snd rv)).


(** the offsets of the neighbours of ego [i] *)
Definition offsets (obs : list pos) (i : nat) : list pos :=
  map (fun q => psub q (nth i obs Pooling.nan_pos)) (select (one_cold i (length obs)) obs).




(** ** Degenerate geometry *)

(** [past_xy] as the row of ego [i] passes it: its previous position in
    front mode, nothing otherwise *)
Definition ego_past (e : Engine) (obs1 : list pos) (i : nat) : option pos :=
  if front e then Some (nth i obs1 Pooling.nan_pos) else None.


(** an offset that the range test of the batched engine flags *)
Definition flagged (e : Engine) (s : Q) (r : pos) : Prop :=
  range_mask e (coord e s r) = false.

(** ** [one_cold] with the index as Python passes it

    [torch.ones(n, dtype=torch.bool)], then [x[i] = 0]: a negative size
    raises, an index outside [[-n, n)] raises, a negative index counts
    from the end. *)

Module Indexed.

Definition one_cold (i n : Z) : res (list bool) :=
  x <- (if (n <? 0)%Z then raise RuntimeError else ret (repeat true (Z.to_nat n))) ;;
  k <- norm_index (length x) i ;;
  ret (update k false x).

End Indexed.

(** ** The MLP pooling modules *)

(** [torch.max(a, b)] on two entries: NaN wins *)
Definition maximum (a b : num) : num :=
  match a, b with
  | Some x, Some y => Some (if Qle_bool x y then y else x)
  | _, _ => None
  end.

(** [torch.cat([a, b], dim=2)] on two (N x N x _) tensors: the sizes of the
    first two dimensions must agree *)
Definition cat_rows (a b : matrix) : res matrix :=
  if (length a =? length b)%nat
  then ret (map (fun xy => fst xy ++ snd xy) (combine a b))
  else raise RuntimeError.

Definition cat_dim2 (a b : list matrix) : res (list matrix) :=
  if (length a =? length b)%nat
  then mapM (fun xy => cat_rows (fst xy) (snd xy)) (combine a b)
  else raise RuntimeError.

(** [torch.max(t, dim=1)] on an (N x N x D) tensor, the values only: the
    entry-wise maximum of the rows of every block; a reduction over no row
    raises *)
Definition max_step (acc row : vec) : vec :=
  map (fun xy => maximum (fst xy) (snd xy)) (combine acc row).

Definition max_rows (rows : matrix) : res vec :=
  match rows with
  | [] => raise IndexError
  | r :: rs => ret (fold_left max_step rs r)
  end.

Definition max_dim1 (t : list matrix) : res matrix :=
  match t with
  | [] => raise IndexError
  | _ => mapM max_rows t
  end.

(** The keyword arguments of the two MLP constructors, and the sizes
    (in_features, out_features) of the three linear layers they build. *)
Record MLPArgs : Type := {
  mlp_hidden_dim : option Z;
  mlp_mlp_dim : option Z;
  mlp_mlp_dim_spatial : option Z;
  mlp_out_dim : option Z
}.

Record MLPSizes : Type := {
  mlp_out : Z;
  spatial_size : Z * Z;
  inner_size : Z * Z;
  projection_size : Z * Z
}.

(** [out_dim or hidden_dim]: [None] and 0 are both false *)
Definition or_else (o : option Z) (d : Z) : Z :=
  match o with
  | None => d
  | Some x => if (x =? 0)%Z then d else x
  end.

Definition Linear_size (in_features out_features : Z) : res (Z * Z) :=
  if Linear_ok in_features out_features then ret (in_features, out_features)
  else raise RuntimeError.

Module HiddenStateMLPPooling.

(** The layers built by [__init__], each applied to the last dimension of
    its input, with the weights drawn at construction. *)
Record Layers : Type := {
  spatial_embedding : vec -> res vec;
  hidden_embedding : vec -> res vec;
  out_projection : vec -> res vec
}.

Definition init (a : MLPArgs) : res MLPSizes :=
  let hidden_dim := default 128%Z (mlp_hidden_dim a) in
  let mlp_dim := default 128%Z (mlp_mlp_dim a) in
  let mlp_dim_spatial := default 16%Z (mlp_mlp_dim_spatial a) in
  let out_dim := or_else (mlp_out_dim a) hidden_dim in
  s <- Linear_size 2 mlp_dim_spatial ;;
  h <- Linear_size hidden_dim (mlp_dim - mlp_dim_spatial) ;;
  p <- Linear_size mlp_dim out_dim ;;
  ret {| mlp_out := out_dim; spatial_size := s; inner_size := h; projection_size := p |}.

(** entry (i, j) is [obs[j] - obs[i]] *)
Definition rel_obs (obs : list pos) : list (list pos) :=
  map (fun oi => map (fun oj => psub oj oi) obs) obs.

(** [pooled], the tensor handed to the output projection *)
Definition pooled (l : Layers) (hidden_states : matrix) (obs : list pos) : res matrix :=
  let rel_obs := rel_obs obs in
  spatial <- mapM (mapM (fun p => spatial_embedding l (pos_row p))) rel_obs ;;
  hidden <- mapM (hidden_embedding l) hidden_states ;;
  let hidden_unfolded := repeat hidden (length hidden) in
  embedded <- cat_dim2 spatial hidden_unfolded ;;
  max_dim1 embedded.

Definition forward (l : Layers) (hidden_states : matrix) (obs : list pos) : res matrix :=
  pooled <- pooled l hidden_states obs ;;
  mapM (out_projection l) pooled.

End HiddenStateMLPPooling.

Module DirectionalMLPPooling.

Record Layers : Type := {
  spatial_embedding : vec -> res vec;
  directional_embedding : vec -> res vec;
  out_projection : vec -> res vec
}.

Definition init (a : MLPArgs) : res MLPSizes :=
  let hidden_dim := default 128%Z (mlp_hidden_dim a) in
  let mlp_dim := default 32%Z (mlp_mlp_dim a) in
  let mlp_dim_spatial := default 16%Z (mlp_mlp_dim_spatial a) in
  let out_dim := or_else (mlp_out_dim a) hidden_dim in
  s <- Linear_size 2 mlp_dim_spatial ;;
  d <- Linear_size 2 (mlp_dim - mlp_dim_spatial) ;;
  p <- Linear_size mlp_dim out_dim ;;
  ret {| mlp_out := out_dim; spatial_size := s; inner_size := d; projection_size := p |}.

Definition rel_obs (obs : list pos) : list (list pos) :=
  map (fun oi => map (fun oj => psub oj oi) obs) obs.

Definition rel_directional (obs1 obs2 : list pos) : res (list (list pos)) :=
  vel <- sub_rows obs2 obs1 ;;
  ret (map (fun vi => map (fun vj => psub vj vi) vel) vel).

(** [pooled], the tensor handed to the output projection *)
Definition pooled (l : Layers) (obs1 obs2 : list pos) : res matrix :=
  let rel_obs := rel_obs obs2 in
  spatial <- mapM (mapM (fun p => spatial_embedding l (pos_row p))) rel_obs ;;
  rel_vel <- rel_directional obs1 obs2 ;;
  directional <- mapM (mapM (fun p => directional_embedding l (pos_row p))) rel_vel ;;
  embedded <- cat_dim2 spatial directional ;;
  max_dim1 embedded.

Definition forward (l : Layers) (obs1 obs2 : list pos) : res matrix :=
  pooled <- pooled l obs1 obs2 ;;
  mapM (out_projection l) pooled.

End DirectionalMLPPooling.

(** ** Moved scenes *)


(** ** The scatter, cell by cell *)

(** the value row written last to cell [k], if any *)
Fixpoint last_write (k : Z) (ivs : list (Z * vec)) : option vec :=
  match ivs with
  | [] => None
  | (i, v) :: rest =>
      match last_write k rest with
      | Some v' => Some v'
      | None => if (i =? k)%Z then Some v else None
      end
  end.

(** ** Pooling as a sum *)



(** ** A blur of width one *)

(** an entry after [avg_pool2d] with a 1 x 1 kernel *)
Definition blur1 (x : num) : num := divq (add zero x) (inject_Z (1 * 1)).

(** a grid after that blur, entry by entry *)
Definition blur_grid (r c : nat) (g : matrix) : matrix :=
  map (fun i => map (fun j => blur1 (get2 g i j)) (zrange (Z.of_nat c))) (zrange (Z.of_nat r)).

(** ** Occupancy as a count *)



(** * Properties *)

Ltac mred := unfold ret, raise in *; cbn [bind] in *.
(** the names of the tensor types are unfolded before rewriting *)
Ltac plain_types := unfold matrix, vec, pos, num in *.

(** ** Lists and masks *)

Lemma select_nil_r {A : Type} (m : list bool) : select m (@nil A) = [].
Proof. destruct m; reflexivity. Qed.

Lemma select_cons {A : Type} (b : bool) (m : list bool) (x : A) (l : list A) :
  select (b :: m) (x :: l) = if b then x :: select m l else select m l.
Proof. unfold select; simpl; destruct b; reflexivity. Qed.

Lemma select_app {A : Type} (m1 m2 : list bool) (l1 l2 : list A) :
  length m1 = length l1 ->
  select (m1 ++ m2) (l1 ++ l2) = select m1 l1 ++ select m2 l2.
Proof.
  revert l1; induction m1 as [|b m1 IH]; intros [|x l1] H; simpl in H; try discriminate.
  - reflexivity.
  - simpl app. rewrite !select_cons, IH by lia. destruct b; reflexivity.
Qed.

Lemma select_map {A B : Type} (f : A -> B) (m : list bool) (l : list A) :
  select m (map f l) = map f (select m l).
Proof.
  revert l; induction m as [|b m IH]; intros [|x l]; try reflexivity.
  simpl map. rewrite !select_cons, IH. destruct b; reflexivity.
Qed.

Lemma select_all {A : Type} (l : list A) (f : A -> bool) :
  (forall x, In x l -> f x = true) -> select (map f l) l = l.
Proof.
  induction l as [|x l IH]; intros H; [reflexivity|].
  simpl map. rewrite select_cons. rewrite (H x) by (left; reflexivity).
  f_equal. apply IH. intros y Hy. apply H. right. exact Hy.
Qed.

Lemma select_length_le {A : Type} (m : list bool) (l : list A) :
  (length (select m l) <= length l)%nat.
Proof.
  revert l; induction m as [|b m IH]; intros [|x l]; simpl; try lia.
  rewrite select_cons. specialize (IH l). destruct b; simpl; lia.
Qed.

(** the mask that is false at [i] only, over a list that starts at index [s] *)
Lemma select_skip_from {A : Type} (s i : nat) (l : list A) :
  (s <= i)%nat ->
  select (map (fun j => negb (j =? i)%nat) (seq s (length l))) l
  = firstn (i - s) l ++ skipn (S (i - s)) l.
Proof.
  revert s; induction l as [|x l IH]; intros s Hs.
  - simpl. rewrite firstn_nil. reflexivity.
  - simpl length. simpl seq. simpl map. rewrite select_cons.
    destruct (Nat.eqb_spec s i) as [->|Hne].
    + simpl negb. rewrite Nat.sub_diag. simpl. clear IH.
      assert (H : forall (t : nat) (l' : list A), (i < t)%nat ->
                select (map (fun j => negb (j =? i)%nat) (seq t (length l'))) l' = l').
      { intros t l'; revert t; induction l' as [|y l' IH']; intros t Ht; [reflexivity|].
        simpl length; simpl seq; simpl map. rewrite select_cons.
        destruct (Nat.eqb_spec t i); [lia|]. simpl. f_equal. apply IH'. lia. }
      apply H. lia.
    + simpl negb. rewrite IH by lia.
      replace (i - s)%nat with (S (i - S s)) by lia. reflexivity.
Qed.

Lemma select_one_cold {A : Type} (i : nat) (l : list A) :
  select (one_cold i (length l)) l = firstn i l ++ skipn (S i) l.
Proof.
  unfold one_cold. rewrite select_skip_from by lia. rewrite Nat.sub_0_r. reflexivity.
Qed.

Lemma select_one_cold_with {A : Type} (i : nat) (a b : list A) (x : A) :
  i <> length a ->
  select (one_cold i (length (a ++ x :: b))) (a ++ x :: b)
  = before i a ++ x :: after i a b.
Proof.
  intros Hi. rewrite select_one_cold. unfold before, after.
  destruct (Nat.ltb_spec i (length a)) as [Hlt|Hge].
  - rewrite firstn_app, skipn_app.
    replace (i - length a)%nat with 0%nat by lia.
    replace (S i - length a)%nat with 0%nat by lia.
    simpl. rewrite app_nil_r, <- app_assoc. reflexivity.
  - assert (Hk : exists k, i = (length a + S k)%nat) by (exists (i - length a - 1)%nat; lia).
    destruct Hk as [k ->].
    rewrite firstn_app, skipn_app.
    rewrite firstn_all2 by lia. rewrite skipn_all2 by lia.
    replace (length a + S k - length a - 1)%nat with k by lia.
    replace (length a + S k - length a)%nat with (S k) by lia.
    replace (S (length a + S k) - length a)%nat with (S (S k)) by lia.
    change (firstn (S k) (x :: b)) with (x :: firstn k b).
    change (skipn (S (S k)) (x :: b)) with (skipn (S k) b).
    rewrite <- app_assoc. reflexivity.
Qed.

Lemma select_one_cold_without {A : Type} (i : nat) (a b : list A) :
  i <> length a ->
  select (one_cold (shift (length a) i) (length (a ++ b))) (a ++ b)
  = before i a ++ after i a b.
Proof.
  intros Hi. rewrite select_one_cold. unfold before, after, shift.
  destruct (Nat.ltb_spec i (length a)) as [Hlt|Hge].
  - rewrite firstn_app, skipn_app.
    replace (i - length a)%nat with 0%nat by lia.
    replace (S i - length a)%nat with 0%nat by lia.
    simpl. rewrite app_nil_r, <- app_assoc. reflexivity.
  - assert (Hk : exists k, i = (length a + S k)%nat) by (exists (i - length a - 1)%nat; lia).
    destruct Hk as [k ->].
    rewrite firstn_app, skipn_app.
    rewrite firstn_all2 by lia. rewrite skipn_all2 by lia.
    replace (length a + S k - length a - 1)%nat with k by lia.
    replace (length a + S k - length a)%nat with (S k) by lia.
    replace (S (length a + S k - 1) - length a)%nat with (S k) by lia.
    replace (length a + S k - 1 - length a)%nat with k by lia.
    rewrite <- app_assoc. reflexivity.
Qed.

Lemma nth_shift {A : Type} (i : nat) (a b : list A) (x d : A) :
  i <> length a ->
  nth i (a ++ x :: b) d = nth (shift (length a) i) (a ++ b) d.
Proof.
  intros Hi. unfold shift. destruct (Nat.ltb_spec i (length a)) as [Hlt|Hge].
  - rewrite !app_nth1 by lia. reflexivity.
  - rewrite !app_nth2 by lia.
    replace (i - length a)%nat with (S (i - 1 - length a)) by lia. reflexivity.
Qed.

Lemma nth_error_shift {A : Type} (i : nat) (a b : list A) (x : A) :
  i <> length a ->
  nth_error (a ++ x :: b) i = nth_error (a ++ b) (shift (length a) i).
Proof.
  intros Hi. unfold shift. destruct (Nat.ltb_spec i (length a)) as [Hlt|Hge].
  - rewrite !nth_error_app1 by lia. reflexivity.
  - rewrite !nth_error_app2 by lia.
    replace (i - length a)%nat with (S (i - 1 - length a)) by lia. reflexivity.
Qed.

Lemma before_length {A B : Type} (i : nat) (a : list A) (a' : list B) :
  length a = length a' -> length (before i a) = length (before i a').
Proof.
  intros H. unfold before. rewrite <- H.
  destruct (Nat.ltb_spec i (length a)); [|exact H].
  rewrite !length_app, !length_firstn, !length_skipn. lia.
Qed.

Lemma after_length {A B : Type} (i : nat) (a b : list A) (a' b' : list B) :
  length a = length a' -> length b = length b' ->
  length (after i a b) = length (after i a' b').
Proof.
  intros Ha Hb. unfold after. rewrite <- Ha.
  destruct (Nat.ltb_spec i (length a)); [exact Hb|].
  rewrite !length_app, !length_firstn, !length_skipn. lia.
Qed.


(** ** Construction *)

(** C9, on the code: construction with a negative cell side, no cell at
    all, a negative pool size and the social variant without a hidden-state
    width succeeds, with the width defaulted to 128. *)
Lemma init_accepts_nonpositive_parameters :
  init {| arg_cell_side := Some (-1)%Q; arg_n := Some 0%Z; arg_hidden_dim := None;
          arg_out_dim := None; arg_type_ := Some Social;
          arg_pool_size := Some (-2)%Z; arg_blur_size := None; arg_front := None |}
       plain
  = inr {| cell_side := (-1)%Q; n := 0%Z; type_ := Social; pool_size := (-2)%Z;
           blur_size := 0%Z; pooling_dim := 128%Z; front := false;
           out_dim := 128%Z; embedding := plain |}.
Proof. reflexivity. Qed.

(** C9, as the code has it: [__init__] stores its arguments unchecked.
    Whatever [cell_side], [n], [pool_size] and [blur_size] are, construction
    succeeds as soon as the two sizes of the linear layer are not negative;
    the social variant takes the default width 128 when none is given. *)
Theorem init_stores_arguments_unchecked (a : InitArgs) (layer : matrix -> res matrix) :
  (0 <= default 128%Z (arg_hidden_dim a))%Z ->
  (0 <= default (default 128%Z (arg_hidden_dim a)) (arg_out_dim a))%Z ->
  exists e, init a layer = inr e
    /\ cell_side e = default 2%Q (arg_cell_side a)
    /\ n e = default 4%Z (arg_n a)
    /\ pool_size e = default 8%Z (arg_pool_size a)
    /\ blur_size e = default 0%Z (arg_blur_size a)
    /\ front e = default false (arg_front a)
    /\ type_ e = default Occupancy (arg_type_ a)
    /\ (type_ e = Social -> pooling_dim e = default 128%Z (arg_hidden_dim a)).
Proof.
  intros Hh Ho. unfold init.
  set (pd := match default Occupancy (arg_type_ a) with
             | Occupancy => 1%Z | Directional => 2%Z
             | Social => default 128%Z (arg_hidden_dim a) end).
  assert (Hpd : (0 <= pd)%Z) by (subst pd; destruct (default Occupancy (arg_type_ a)); lia).
  assert (Hok : Linear_ok (default 4%Z (arg_n a) * default 4%Z (arg_n a) * pd)
                  match arg_out_dim a with
                  | Some d => d
                  | None => default 128%Z (arg_hidden_dim a)
                  end = true).
  { unfold Linear_ok. apply andb_true_iff. split; apply Z.leb_le.
    - nia.
    - destruct (arg_out_dim a); simpl in Ho; lia. }
  rewrite Hok. eexists. split; [reflexivity|]. simpl.
  repeat split; try reflexivity.
  intros Ht. subst pd. rewrite Ht. reflexivity.
Qed.

Lemma init_stores_arguments_unchecked_witness :
  exists e,
    init {| arg_cell_side := Some 0%Q; arg_n := Some (-3)%Z; arg_hidden_dim := None;
            arg_out_dim := None; arg_type_ := Some Social;
            arg_pool_size := Some 0%Z; arg_blur_size := None; arg_front := None |}
         plain = inr e
    /\ cell_side e = 0%Q /\ n e = (-3)%Z /\ pool_size e = 0%Z /\ blur_size e = 0%Z
    /\ front e = false /\ type_ e = Social
    /\ (type_ e = Social -> pooling_dim e = 128%Z).
Proof.
  apply (init_stores_arguments_unchecked
           {| arg_cell_side := Some 0%Q; arg_n := Some (-3)%Z; arg_hidden_dim := None;
              arg_out_dim := None; arg_type_ := Some Social;
              arg_pool_size := Some 0%Z; arg_blur_size := None; arg_front := None |}
           plain); simpl; lia.
Defined.

(** ** The batched engine ignores [front] and [blur_size] *)

(** C10: two batched engines that differ in [front] and [blur_size] only
    return the same output on every input. *)
Theorem FastPooling_forward_ignores_front_blur
        (e : Engine) (f : bool) (b : Z) (hidden_state : matrix) (obs1 obs2 : list pos) :
  FastPooling.forward (with_front_blur e f b) hidden_state obs1 obs2
  = FastPooling.forward e hidden_state obs1 obs2.
Proof. reflexivity. Qed.

(** ** Evaluations on concrete scenes *)




(** C4, on the code: ego 0 has two neighbours in sub-cell 0, with features
    5 and 7, and a third neighbour out of range.  The per-agent engine
    keeps 7, the feature of the later neighbour; the batched engine writes
    the zeroed row of the out-of-range neighbour to cell 0 and loses it. *)
Theorem batched_scatter_erases_cell_zero :
  FastPooling.grid (engine 2 2 Social 1 0 1 false)
                   [[fin 3]; [fin 5]; [fin 7]; [fin 9]] []
                   [P 0 0; P (-3 # 2) (-3 # 2); P (-6 # 5) (-6 # 5); P 10 10]
  = inr [[zero; zero; zero; zero]; [zero; zero; zero; fin 7];
         [zero; zero; zero; fin 3]; [zero; zero; zero; zero]]
  /\ Pooling.grid axis_math (engine 2 2 Social 1 0 1 false)
                  [[fin 3]; [fin 5]; [fin 7]; [fin 9]] []
                  [P 0 0; P (-3 # 2) (-3 # 2); P (-6 # 5) (-6 # 5); P 10 10]
     = inr [[fin 7; zero; zero; zero]; [zero; zero; zero; fin 7];
            [fin 5; zero; zero; fin 3]; [zero; zero; zero; zero]].
Proof. split; vm_compute; reflexivity. Qed.



(** With an even [blur_size] and [pool_size = 1] the smoothed grid is one
    cell wider, and so is the descriptor: 9 entries for [n = 2]. *)
Lemma even_blur_widens_the_descriptor :
  Pooling.grid axis_math (engine 2 2 Occupancy 1 2 1 false) [] []
               [P 0 0; P (1 # 2) (1 # 2)]
  = inr [[zero; zero; zero; zero; fin (1 # 4); fin (1 # 4); zero; fin (1 # 4); fin (1 # 4)];
         [fin (1 # 4); fin (1 # 4); zero; fin (1 # 4); fin (1 # 4); zero; zero; zero; zero]].
Proof. vm_compute; reflexivity. Qed.


(** ** The per-agent engine masks the sentinel *)

Lemma ones2_rows (k : nat) :
  ones2 (Z.of_nat k) 1 = inr (repeat [one] k).
Proof.
  unfold ones2, full2.
  destruct (Z.ltb_spec (Z.of_nat k) 0); [lia|].
  simpl. rewrite Nat2Z.id. reflexivity.
Qed.

Lemma dense_default_values (M : MathLib) (e : Engine) (xy : pos) (l : list pos)
      (past : option pos) :
  Pooling.dense M e xy (Some l) None past
  = Pooling.dense M e xy (Some l) (Some (repeat [one] (length l))) past.
Proof. unfold Pooling.dense. rewrite ones2_rows. reflexivity. Qed.

(** a neighbour whose first coordinate is NaN, and its value row, can be
    taken out of the arguments of [dense] *)
Lemma dense_masked_neighbour (M : MathLib) (e : Engine) (xy x : pos)
      (l1 l2 : list pos) (v1 v2 : matrix) (y : vec) (past : option pos) :
  isnan (fst x) = true -> length v1 = length l1 -> length v2 = length l2 ->
  Pooling.dense M e xy (Some (l1 ++ x :: l2)) (Some (v1 ++ y :: v2)) past
  = Pooling.dense M e xy (Some (l1 ++ l2)) (Some (v1 ++ v2)) past.
Proof.
  intros Hx H1 H2. unfold Pooling.dense.
  destruct (isnan (fst xy)); [reflexivity|]. simpl orb.
  assert (E1 : (length (l1 ++ x :: l2) =? 0)%nat = false).
  { rewrite length_app. simpl. apply Nat.eqb_neq. lia. }
  rewrite E1. mred.
  set (f := fun p : num * num => negb (isnan (fst p))).
  assert (Hsel : forall (B : Type) (w1 w2 : list B) (z : B), length w1 = length l1 ->
             select (map f (l1 ++ x :: l2)) (w1 ++ z :: w2)
             = select (map f (l1 ++ l2)) (w1 ++ w2)).
  { intros B w1 w2 z Hw. rewrite !map_app. simpl map.
    rewrite !select_app by (rewrite length_map; lia).
    rewrite select_cons. unfold f at 2. rewrite Hx. reflexivity. }
  assert (Hval : masked (map f (l1 ++ x :: l2)) (v1 ++ y :: v2)
                 = masked (map f (l1 ++ l2)) (v1 ++ v2)).
  { unfold masked. rewrite !length_map, !length_app. simpl length.
    rewrite H1, H2, !Nat.eqb_refl. rewrite Hsel by exact H1. reflexivity. }
  rewrite Hval, (Hsel _ l1 l2 x eq_refl).
  destruct (length (l1 ++ l2) =? 0)%nat eqn:E2; [|reflexivity].
  apply Nat.eqb_eq in E2. rewrite length_app in E2.
  destruct l1; [|simpl in E2; lia]. destruct l2; [|simpl in E2; lia].
  destruct v1; [|simpl in H1; lia]. destruct v2; [|simpl in H2; lia].
  reflexivity.
Qed.

Lemma dense_masked_neighbour_default (M : MathLib) (e : Engine) (xy x : pos)
      (l1 l2 : list pos) (past : option pos) :
  isnan (fst x) = true ->
  Pooling.dense M e xy (Some (l1 ++ x :: l2)) None past
  = Pooling.dense M e xy (Some (l1 ++ l2)) None past.
Proof.
  intros Hx. rewrite !dense_default_values.
  rewrite !length_app. simpl length. rewrite !repeat_app. simpl repeat.
  apply dense_masked_neighbour; auto using repeat_length.
Qed.

Lemma occupancy_masked_neighbour (M : MathLib) (e : Engine) (xy x : pos)
      (l1 l2 : list pos) (v1 v2 : matrix) (y : vec) (past : option pos) :
  isnan (fst x) = true -> length v1 = length l1 -> length v2 = length l2 ->
  Pooling.occupancy M e xy (Some (l1 ++ x :: l2)) (Some (v1 ++ y :: v2)) past
  = Pooling.occupancy M e xy (Some (l1 ++ l2)) (Some (v1 ++ v2)) past.
Proof.
  intros. unfold Pooling.occupancy. rewrite dense_masked_neighbour; auto.
Qed.

Lemma occupancy_masked_neighbour_default (M : MathLib) (e : Engine) (xy x : pos)
      (l1 l2 : list pos) (past : option pos) :
  isnan (fst x) = true ->
  Pooling.occupancy M e xy (Some (l1 ++ x :: l2)) None past
  = Pooling.occupancy M e xy (Some (l1 ++ l2)) None past.
Proof.
  intros. unfold Pooling.occupancy. rewrite dense_masked_neighbour_default; auto.
Qed.

Lemma masked_one_cold_with {A B : Type} (i : nat) (a b : list A) (x : A)
      (a' b' : list B) (y : B) :
  length a' = length a -> length b' = length b -> i <> length a ->
  masked (one_cold i (length (a ++ x :: b))) (a' ++ y :: b')
  = inr (before i a' ++ y :: after i a' b').
Proof.
  intros Ha Hb Hi. unfold masked.
  assert (E : length (a ++ x :: b) = length (a' ++ y :: b')).
  { rewrite !length_app. simpl. lia. }
  rewrite E. unfold one_cold at 1. rewrite length_map, length_seq, Nat.eqb_refl.
  rewrite select_one_cold_with by lia. reflexivity.
Qed.

Lemma masked_one_cold_without {A B : Type} (i : nat) (a b : list A)
      (a' b' : list B) :
  length a' = length a -> length b' = length b -> i <> length a ->
  masked (one_cold (shift (length a) i) (length (a ++ b))) (a' ++ b')
  = inr (before i a' ++ after i a' b').
Proof.
  intros Ha Hb Hi. unfold masked.
  assert (E : length (a ++ b) = length (a' ++ b')).
  { rewrite !length_app. lia. }
  rewrite E, <- Ha. unfold one_cold at 1. rewrite length_map, length_seq, Nat.eqb_refl.
  rewrite select_one_cold_without by lia. reflexivity.
Qed.

Lemma item_shift {A : Type} (i : nat) (a b : list A) (x : A) :
  i <> length a ->
  Pooling.item i (a ++ x :: b) = Pooling.item (shift (length a) i) (a ++ b).
Proof. intros Hi. unfold Pooling.item. rewrite nth_error_shift by exact Hi. reflexivity. Qed.

Lemma rows_sub_length (a b : list pos) :
  length a = length b -> length (rows_sub a b) = length a.
Proof. intros H. unfold rows_sub. rewrite length_map, length_combine. lia. Qed.

Lemma sub_rows_same_length (a b : list pos) :
  length a = length b -> sub_rows a b = inr (rows_sub a b).
Proof. intros H. unfold sub_rows. rewrite H, Nat.eqb_refl. reflexivity. Qed.

Lemma rows_sub_app (a1 a2 b1 b2 : list pos) :
  length a1 = length b1 ->
  rows_sub (a1 ++ a2) (b1 ++ b2) = rows_sub a1 b1 ++ rows_sub a2 b2.
Proof.
  intros H. unfold rows_sub. rewrite <- map_app. f_equal.
  revert b1 H; induction a1 as [|x a1 IH]; intros [|y b1] H; simpl in *; try discriminate.
  - reflexivity.
  - f_equal. apply IH. lia.
Qed.

(** the relative velocities seen by ego [i], with and without agent [k] *)
Lemma relative_velocity_with (o1a o1b o2a o2b : list pos) (p x : pos) (i : nat) :
  length o1a = length o2a -> length o1b = length o2b -> i <> length o2a ->
  Pooling.relative_velocity (o1a ++ p :: o1b) (o2a ++ x :: o2b) i
  = own <- Pooling.item (shift (length o2a) i) (rows_sub (o2a ++ o2b) (o1a ++ o1b)) ;;
    ret (map (fun v => pos_row (psub v own))
             (before i (rows_sub o2a o1a) ++ psub x p :: after i (rows_sub o2a o1a)
                                                               (rows_sub o2b o1b))).
Proof.
  intros Ha Hb Hi. unfold Pooling.relative_velocity.
  rewrite sub_rows_same_length by (rewrite !length_app; simpl; lia).
  mred. change (x :: o2b) with ([x] ++ o2b). change (p :: o1b) with ([p] ++ o1b).
  rewrite !rows_sub_app by (simpl; lia).
  change (rows_sub [x] [p]) with [psub x p]. simpl app.
  rewrite (masked_one_cold_with i o2a o2b x)
    by (rewrite ?rows_sub_length; lia).
  mred. rewrite item_shift by (rewrite rows_sub_length; lia).
  rewrite rows_sub_length by lia. reflexivity.
Qed.

Lemma relative_velocity_without (o1a o1b o2a o2b : list pos) (i : nat) :
  length o1a = length o2a -> length o1b = length o2b -> i <> length o2a ->
  Pooling.relative_velocity (o1a ++ o1b) (o2a ++ o2b) (shift (length o2a) i)
  = own <- Pooling.item (shift (length o2a) i) (rows_sub (o2a ++ o2b) (o1a ++ o1b)) ;;
    ret (map (fun v => pos_row (psub v own))
             (before i (rows_sub o2a o1a) ++ after i (rows_sub o2a o1a)
                                                   (rows_sub o2b o1b))).
Proof.
  intros Ha Hb Hi. unfold Pooling.relative_velocity.
  rewrite sub_rows_same_length by (rewrite !length_app; lia).
  mred. rewrite !rows_sub_app by lia.
  rewrite (masked_one_cold_without i o2a o2b)
    by (rewrite ?rows_sub_length; lia).
  mred. reflexivity.
Qed.

Lemma occupancy_without_neighbours (M : MathLib) (e : Engine) (xy xy' : pos)
      (vals : option matrix) (past : option pos) :
  Pooling.occupancy M e xy (Some []) vals past
  = Pooling.occupancy M e xy' None None None.
Proof.
  unfold Pooling.occupancy, Pooling.dense. simpl. rewrite orb_true_r. reflexivity.
Qed.

Lemma lone_survivor {A : Type} (i : nat) (a b : list A) (x : A) :
  length (a ++ b) = 1%nat -> i <> length a -> (i < length (a ++ x :: b))%nat ->
  before i a ++ after i a b = [] /\ shift (length a) i = 0%nat.
Proof.
  intros H1 Hi Hlt.
  assert (Hs : shift (length a) i = 0%nat).
  { rewrite length_app in *. simpl in Hlt. unfold shift.
    destruct (Nat.ltb_spec i (length a)); lia. }
  split; [|exact Hs].
  rewrite <- select_one_cold_without by exact Hi. rewrite select_one_cold, Hs.
  destruct (a ++ b) as [|q [|q' l]]; simpl in H1; try lia. reflexivity.
Qed.

Lemma item_single {A : Type} (l : list A) :
  length l = 1%nat -> exists x, Pooling.item 0 l = inr x.
Proof.
  destruct l as [|x [|y l]]; simpl; intros H; try lia. exists x. reflexivity.
Qed.

Lemma item_lt {A : Type} (i : nat) (l : list A) :
  (i < length l)%nat -> exists x, Pooling.item i l = inr x.
Proof.
  intros H. unfold Pooling.item. destruct (nth_error l i) eqn:E.
  - eexists; reflexivity.
  - apply nth_error_None in E. lia.
Qed.

(** A neighbour [q] that [occupancy] does not see among the neighbours of
    ego [i] can be taken out of the scene.  The scene is written around
    agent [k]: [k = length o2a]. *)
Lemma ego_descriptor_without_neighbour (M : MathLib) (e : Engine)
      (ha hb : matrix) (h : vec) (o1a o1b o2a o2b : list pos) (p1 q : pos) (i : nat) :
  length ha = length o2a -> length hb = length o2b ->
  length o1a = length o2a -> length o1b = length o2b ->
  i <> length o2a -> (i < length (o2a ++ q :: o2b))%nat ->
  (forall past l1 l2 v1 v2 y, length v1 = length l1 -> length v2 = length l2 ->
     Pooling.occupancy M e (nth i (o2a ++ q :: o2b) Pooling.nan_pos)
                       (Some (l1 ++ q :: l2)) (Some (v1 ++ y :: v2)) past
     = Pooling.occupancy M e (nth i (o2a ++ q :: o2b) Pooling.nan_pos)
                         (Some (l1 ++ l2)) (Some (v1 ++ v2)) past) ->
  ego_descriptor M e (ha ++ h :: hb) (o1a ++ p1 :: o1b) (o2a ++ q :: o2b) i
  = ego_descriptor M e (ha ++ hb) (o1a ++ o1b) (o2a ++ o2b) (shift (length o2a) i).
Proof.
  intros Hha Hhb H1a H1b Hi Hlt Hrem.
  assert (Hdef : forall past l1 l2,
     Pooling.occupancy M e (nth i (o2a ++ q :: o2b) Pooling.nan_pos)
                       (Some (l1 ++ q :: l2)) None past
     = Pooling.occupancy M e (nth i (o2a ++ q :: o2b) Pooling.nan_pos)
                         (Some (l1 ++ l2)) None past).
  { intros past l1 l2. unfold Pooling.occupancy. rewrite !dense_default_values.
    rewrite !length_app. simpl length. rewrite !repeat_app. simpl repeat.
    apply (Hrem past l1 l2); apply repeat_length. }
  assert (HNA : (length (o2a ++ q :: o2b) =? 1)%nat = false).
  { apply Nat.eqb_neq. rewrite length_app in *. simpl in *. lia. }
  assert (Hrow : forall past,
    (values <- Pooling.relative_velocity (o1a ++ p1 :: o1b)
                 (o2a ++ q :: o2b) i ;;
     Pooling.occupancy M e (nth i (o2a ++ q :: o2b) Pooling.nan_pos)
       (Some (select (one_cold i (length (o2a ++ q :: o2b)))
                     (o2a ++ q :: o2b)))
       (Some values) past)
    = (own <- Pooling.item (shift (length o2a) i) (rows_sub (o2a ++ o2b) (o1a ++ o1b)) ;;
       Pooling.occupancy M e (nth i (o2a ++ q :: o2b) Pooling.nan_pos)
         (Some (before i o2a ++ after i o2a o2b))
         (Some (map (fun v => pos_row (psub v own))
                    (before i (rows_sub o2a o1a)
                     ++ after i (rows_sub o2a o1a) (rows_sub o2b o1b))))
         past)).
  { intros past. rewrite relative_velocity_with by assumption.
    destruct (Pooling.item (shift (length o2a) i) (rows_sub (o2a ++ o2b) (o1a ++ o1b)))
      as [err|own]; [reflexivity|]. mred.
    rewrite select_one_cold_with by assumption.
    rewrite !map_app. simpl map.
    apply Hrem.
    - rewrite length_map. apply before_length. rewrite rows_sub_length; lia.
    - rewrite length_map. apply after_length; rewrite rows_sub_length; lia. }
  assert (Hrow' : forall past,
    (values <- Pooling.relative_velocity (o1a ++ o1b) (o2a ++ o2b) (shift (length o2a) i) ;;
     Pooling.occupancy M e (nth (shift (length o2a) i) (o2a ++ o2b) Pooling.nan_pos)
       (Some (select (one_cold (shift (length o2a) i) (length (o2a ++ o2b))) (o2a ++ o2b)))
       (Some values) past)
    = (own <- Pooling.item (shift (length o2a) i) (rows_sub (o2a ++ o2b) (o1a ++ o1b)) ;;
       Pooling.occupancy M e (nth i (o2a ++ q :: o2b) Pooling.nan_pos)
         (Some (before i o2a ++ after i o2a o2b))
         (Some (map (fun v => pos_row (psub v own))
                    (before i (rows_sub o2a o1a)
                     ++ after i (rows_sub o2a o1a) (rows_sub o2b o1b))))
         past)).
  { intros past. rewrite relative_velocity_without by assumption.
    destruct (Pooling.item (shift (length o2a) i) (rows_sub (o2a ++ o2b) (o1a ++ o1b)))
      as [err|own]; [reflexivity|]. mred.
    rewrite select_one_cold_without by assumption.
    rewrite <- (nth_shift i o2a o2b q) by assumption. reflexivity. }
  assert (Hone : (length (o2a ++ o2b) =? 1)%nat = true -> forall past,
    (own <- Pooling.item (shift (length o2a) i) (rows_sub (o2a ++ o2b) (o1a ++ o1b)) ;;
       Pooling.occupancy M e (nth i (o2a ++ q :: o2b) Pooling.nan_pos)
         (Some (before i o2a ++ after i o2a o2b))
         (Some (map (fun v => pos_row (psub v own))
                    (before i (rows_sub o2a o1a)
                     ++ after i (rows_sub o2a o1a) (rows_sub o2b o1b))))
         past)
    = Pooling.occupancy M e (nth 0 (o2a ++ o2b) Pooling.nan_pos) None None None).
  { intros E past. apply Nat.eqb_eq in E.
    destruct (lone_survivor i o2a o2b q E Hi Hlt) as [Hnil Hs].
    rewrite Hs, Hnil.
    destruct (item_single (rows_sub (o2a ++ o2b) (o1a ++ o1b))) as [own Hown].
    { rewrite rows_sub_length; rewrite ?length_app in *; lia. }
    rewrite Hown. mred. apply occupancy_without_neighbours. }
  unfold ego_descriptor.
  destruct (front e); simpl negb; cbv iota; destruct (type_ e).
  - (* front, occupancy *)
    unfold Pooling.front_occupancies_row.
    rewrite item_shift by lia.
    destruct (Pooling.item (shift (length o1a) i) (o1a ++ o1b)) as [err|past] eqn:E;
      rewrite H1a in E; rewrite E; [reflexivity|]. mred.
    rewrite select_one_cold_with, select_one_cold_without by assumption.
    rewrite <- (nth_shift i o2a o2b q) by assumption.
    apply Hdef.
  - (* front, directional *)
    rewrite HNA. unfold Pooling.front_directional_row.
    destruct (item_lt i (o1a ++ p1 :: o1b)) as [past Hpast].
    { rewrite length_app in *. simpl in *. lia. }
    assert (Hswap : forall (c : res matrix) (k : matrix -> pos -> res vec),
               (values <- c ;; past' <- Pooling.item i (o1a ++ p1 :: o1b) ;; k values past')
               = (values <- c ;; k values past)).
    { intros c k. destruct c; [reflexivity|]. mred. rewrite Hpast. reflexivity. }
    rewrite Hswap, Hrow.
    destruct (length (o2a ++ o2b) =? 1)%nat eqn:E1.
    + apply Hone. reflexivity.
    + rewrite item_shift in Hpast by lia. rewrite H1a in Hpast.
      assert (Hswap' : forall (c : res matrix) (k : matrix -> pos -> res vec),
               (values <- c ;; past' <- Pooling.item (shift (length o2a) i) (o1a ++ o1b) ;;
                k values past')
               = (values <- c ;; k values past)).
      { intros c k. destruct c; [reflexivity|]. mred. rewrite Hpast. reflexivity. }
      rewrite Hswap', Hrow'. reflexivity.
  - (* front, social *)
    unfold Pooling.front_social_row.
    rewrite (masked_one_cold_with i o2a o2b q ha hb h) by assumption.
    rewrite (masked_one_cold_without i o2a o2b ha hb) by assumption. mred.
    rewrite item_shift by lia.
    destruct (Pooling.item (shift (length o1a) i) (o1a ++ o1b)) as [err|past] eqn:E;
      rewrite H1a in E; rewrite E; [reflexivity|]. mred.
    rewrite select_one_cold_with, select_one_cold_without by assumption.
    rewrite <- (nth_shift i o2a o2b q) by assumption.
    apply Hrem.
    + apply before_length. exact Hha.
    + apply after_length; assumption.
  - (* occupancy *)
    unfold Pooling.occupancies_row.
    rewrite select_one_cold_with, select_one_cold_without by assumption.
    rewrite <- (nth_shift i o2a o2b q) by assumption.
    apply Hdef.
  - (* directional *)
    rewrite HNA. unfold Pooling.directional_row. rewrite Hrow.
    destruct (length (o2a ++ o2b) =? 1)%nat eqn:E1.
    + apply Hone. reflexivity.
    + rewrite Hrow'. reflexivity.
  - (* social *)
    unfold Pooling.social_row.
    rewrite (masked_one_cold_with i o2a o2b q ha hb h) by assumption.
    rewrite (masked_one_cold_without i o2a o2b ha hb) by assumption. mred.
    rewrite select_one_cold_with, select_one_cold_without by assumption.
    rewrite <- (nth_shift i o2a o2b q) by assumption.
    apply Hrem.
    + apply before_length. exact Hha.
    + apply after_length; assumption.
Qed.

(** C8: in the per-agent engine, the descriptor of an ego in the scene where
    neighbour [k] carries the NaN sentinel is the descriptor of that ego in
    the scene from which neighbour [k] is taken out (positions, previous
    positions and hidden states), for every variant and both front modes.
    The scene is written around agent [k]: [k = length o2a]. *)
Theorem masked_neighbour_is_absent (M : MathLib) (e : Engine)
        (ha hb : matrix) (h : vec) (o1a o1b o2a o2b : list pos) (p1 : pos) (i : nat) :
  length ha = length o2a -> length hb = length o2b ->
  length o1a = length o2a -> length o1b = length o2b ->
  i <> length o2a -> (i < length (o2a ++ Pooling.nan_pos :: o2b))%nat ->
  ego_descriptor M e (ha ++ h :: hb) (o1a ++ p1 :: o1b)
                 (o2a ++ Pooling.nan_pos :: o2b) i
  = ego_descriptor M e (ha ++ hb) (o1a ++ o1b) (o2a ++ o2b) (shift (length o2a) i).
Proof.
  intros Hha Hhb H1a H1b Hi Hlt.
  apply ego_descriptor_without_neighbour; try assumption.
  intros past l1 l2 v1 v2 y Hv1 Hv2.
  apply occupancy_masked_neighbour; [reflexivity | exact Hv1 | exact Hv2].
Qed.

Lemma masked_neighbour_is_absent_witness :
  ego_descriptor axis_math (engine 2 4 Social 1 0 1 false)
                 ([[fin 1]] ++ [fin 2] :: [[fin 3]])
                 ([P 0 0] ++ P 1 1 :: [P 3 0])
                 ([P 0 0] ++ Pooling.nan_pos :: [P 3 1]) 2
  = ego_descriptor axis_math (engine 2 4 Social 1 0 1 false)
                   ([[fin 1]] ++ [[fin 3]]) ([P 0 0] ++ [P 3 0]) ([P 0 0] ++ [P 3 1])
                   (shift (length [P 0 0]) 2).
Proof.
  apply (masked_neighbour_is_absent axis_math (engine 2 4 Social 1 0 1 false)
           [[fin 1]] [[fin 3]] [fin 2] [P 0 0] [P 3 0] [P 0 0] [P 3 1] (P 1 1) 2);
    simpl; try reflexivity; lia.
Defined.

(** ** Grid coordinates and the range test *)

Lemma Qltb_lt (x y : Q) : Qltb x y = true <-> (x < y)%Q.
Proof.
  unfold Qltb. rewrite Qlt_alt. destruct (x ?= y)%Q; split; congruence.
Qed.

Lemma violation_iff (e : Engine) (v : Q) :
  violation e (Some v) = true <-> (v < 0 \/ inject_Z (side e) <= v)%Q.
Proof.
  unfold violation, ltb, geb. rewrite orb_true_iff, Qltb_lt, Qle_bool_iff. reflexivity.
Qed.


Lemma range_mask_true (e : Engine) (o : pos) :
  range_mask e o = true <-> violation e (fst o) = false /\ violation e (snd o) = false.
Proof.
  unfold range_mask, range_violations, b2z.
  destruct (violation e (fst o)), (violation e (snd o)); simpl; intuition congruence.
Qed.


Lemma scaled_value (s h d : Q) :
  exists v, scaled s h (Some d) = Some v /\ (v == d / s + h)%Q.
Proof.
  unfold scaled, add, divq, lift2, fin. eexists. split; [reflexivity|].
  rewrite !Qred_correct. reflexivity.
Qed.




(** ** A neighbour out of range, in the per-agent engine *)

Lemma select_length_same {A B : Type} (m : list bool) (l : list A) (l' : list B) :
  length l = length l' -> length (select m l) = length (select m l').
Proof.
  revert l l'; induction m as [|b m IH]; intros [|x l] [|x' l'] H;
    simpl in H; try discriminate; try reflexivity.
  rewrite !select_cons. destruct b; simpl; rewrite (IH l l') by lia; reflexivity.
Qed.

Lemma masked_same_length {A : Type} (m : list bool) (l : list A) :
  length m = length l -> masked m l = inr (select m l).
Proof. intros H. unfold masked. rewrite H, Nat.eqb_refl. reflexivity. Qed.





(** ** The grid indexer *)


(** a real in [[0, L)] and its floor in [[0, L)], for an integer [L] *)
Lemma floor_in_range (v : Q) (L : Z) :
  (0 <= v /\ v < inject_Z L)%Q <-> (0 <= Qfloor v < L)%Z.
Proof.
  pose proof (Qfloor_le v) as Hle. pose proof (Qlt_floor v) as Hlt.
  split.
  - intros [H0 HL]. split.
    + change 0%Z with (Qfloor 0). apply Qfloor_resp_le. exact H0.
    + rewrite Zlt_Qlt. apply Qle_lt_trans with v; assumption.
  - intros [H0 HL]. split.
    + apply Qle_trans with (inject_Z (Qfloor v)); [|exact Hle].
      change 0%Q with (inject_Z 0). rewrite <- Zle_Qle. exact H0.
    + apply Qlt_le_trans with (inject_Z (Qfloor v + 1)); [exact Hlt|].
      rewrite <- Zle_Qle. lia.
Qed.

Lemma no_violation_iff (e : Engine) (v : Q) :
  violation e (Some v) = false <-> (0 <= Qfloor v < side e)%Z.
Proof.
  rewrite <- floor_in_range. split.
  - intros H. split.
    + apply Qnot_lt_le. intros Hn. rewrite (proj2 (violation_iff e v)) in H by (left; exact Hn).
      discriminate.
    + apply Qnot_le_lt. intros Hn. rewrite (proj2 (violation_iff e v)) in H by (right; exact Hn).
      discriminate.
  - intros [H0 HL]. destruct (violation e (Some v)) eqn:E; [|reflexivity].
    apply violation_iff in E. destruct E as [E|E]; lra.
Qed.


(** [.long()] of a non-negative entry is its floor *)
Lemma long_floor (v : Q) : (0 <= Qfloor v)%Z -> long (Some v) = inr (Qfloor v).
Proof.
  intros H. unfold long, ret. f_equal. destruct v as [a b]. unfold Qfloor in *.
  cbn [Qnum Qden]. apply Z.quot_div_nonneg; [|lia].
  destruct (Z.le_gt_cases 0 a) as [Ha|Ha]; [exact Ha|].
  assert (a / Z.pos b < 0)%Z by (apply Z.div_lt_upper_bound; lia). lia.
Qed.

Lemma long2_floor (e : Engine) (vx vy : Q) :
  range_mask e (Some vx, Some vy) = true ->
  long2 (Some vx, Some vy) = inr (Qfloor vx, Qfloor vy).
Proof.
  intros H. apply range_mask_true in H. destruct H as [Hx Hy]. cbn [fst snd] in *.
  apply no_violation_iff in Hx. apply no_violation_iff in Hy.
  unfold long2. cbn [fst snd]. rewrite !long_floor by lia. reflexivity.
Qed.

Lemma linear_spec (e : Engine) (cx cy : Z) : linear e (cx, cy) = spec_index cx cy e.
Proof. unfold linear, spec_index. cbn [fst snd]. ring. Qed.









(** ** What the scatter stores *)

Lemma In_select {A : Type} (m : list bool) (l : list A) (x : A) :
  In x (select m l) -> In x l.
Proof.
  revert l; induction m as [|b m IH]; intros [|y l]; try (simpl; tauto).
  rewrite select_cons. destruct b; simpl; intros H.
  - destruct H as [H|H]; [left; exact H|right; apply IH; exact H].
  - right. apply IH. exact H.
Qed.


Lemma update_length {A : Type} (k : nat) (x : A) (l : list A) :
  length (update k x l) = length l.
Proof. revert k; induction l as [|y l IH]; intros [|k]; simpl; auto. Qed.


Lemma zeros2_rows (r c : Z) (occ : matrix) :
  zeros2 r c = inr occ ->
  occ = repeat (repeat zero (Z.to_nat c)) (Z.to_nat r) /\ (0 <= r)%Z /\ (0 <= c)%Z.
Proof.
  unfold zeros2, full2.
  destruct (Z.ltb_spec r 0) as [Hr|Hr]; [discriminate|].
  destruct (Z.ltb_spec c 0) as [Hc|Hc]; [discriminate|].
  simpl. intros H. injection H as <-. repeat split; lia.
Qed.





(** ** Front mode *)




(** ** Shapes of the pooling pipeline *)

Lemma mapM_inr {A B : Type} (f : A -> res B) (g : A -> B) (l : list A) :
  (forall x, In x l -> f x = inr (g x)) -> mapM f l = inr (map g l).
Proof.
  induction l as [|x l IH]; intros H; [reflexivity|].
  simpl. rewrite (H x) by (left; reflexivity). mred.
  rewrite IH by (intros y Hy; apply H; right; exact Hy). reflexivity.
Qed.

Lemma mapM_ext {A B : Type} (f g : A -> res B) (l : list A) :
  (forall x, In x l -> f x = g x) -> mapM f l = mapM g l.
Proof.
  induction l as [|x l IH]; intros H; [reflexivity|].
  simpl. rewrite (H x) by (left; reflexivity).
  rewrite IH by (intros y Hy; apply H; right; exact Hy). reflexivity.
Qed.

Lemma mapM_length {A B : Type} (f : A -> res B) (l : list A) (l' : list B) :
  mapM f l = inr l' -> length l' = length l.
Proof.
  revert l'; induction l as [|x l IH]; intros l' H; simpl in H.
  - injection H as <-. reflexivity.
  - destruct (f x); [discriminate|]. mred.
    destruct (mapM f l) as [err|ys]; [discriminate|]. mred.
    injection H as <-. simpl. rewrite (IH ys eq_refl). reflexivity.
Qed.

Lemma mapM_Forall {A B : Type} (f : A -> res B) (P : B -> Prop) (l : list A) (l' : list B) :
  mapM f l = inr l' -> (forall x y, In x l -> f x = inr y -> P y) -> Forall P l'.
Proof.
  revert l'; induction l as [|x l IH]; intros l' H HP; simpl in H.
  - injection H as <-. constructor.
  - destruct (f x) as [err|y] eqn:E; [discriminate|]. mred.
    destruct (mapM f l) as [err|ys] eqn:E'; [discriminate|]. mred.
    injection H as <-. constructor.
    + apply (HP x); [left; reflexivity|exact E].
    + apply IH; [reflexivity|]. intros x' y' Hin Hf. apply (HP x'); [right; exact Hin|exact Hf].
Qed.

Lemma zrange_length (k : Z) : length (zrange k) = Z.to_nat k.
Proof. unfold zrange. rewrite length_map, length_seq. reflexivity. Qed.

Lemma rows_of_length {A : Type} (r c : nat) (l : list A) : length (rows_of r c l) = r.
Proof. unfold rows_of. rewrite length_map, length_seq. reflexivity. Qed.

Lemma rows_of_widths {A : Type} (r c : nat) (l : list A) :
  (r * c <= length l)%nat -> Forall (fun row => length row = c) (rows_of r c l).
Proof.
  intros H. unfold rows_of. apply Forall_forall. intros row Hin.
  apply in_map_iff in Hin. destruct Hin as [i [<- Hi]]. apply in_seq in Hi.
  rewrite length_firstn, length_skipn. nia.
Qed.

Lemma channel_length (c : nat) (occ : matrix) : length (channel c occ) = length occ.
Proof. unfold channel. apply length_map. Qed.


Lemma shaped_hd (r c : nat) (g : matrix) :
  shaped r c g -> (0 < r)%nat -> length (hd [] g) = c.
Proof.
  intros [Hl Hw] Hr. destruct g as [|row g]; [simpl in Hl; lia|].
  simpl. inversion Hw; assumption.
Qed.

Lemma concat_length_uniform {A : Type} (c : nat) (l : list (list A)) :
  Forall (fun row => length row = c) l -> length (concat l) = (length l * c)%nat.
Proof.
  induction 1 as [|row l Hrow Hl IH]; [reflexivity|].
  simpl. rewrite length_app, IH, Hrow. reflexivity.
Qed.


Lemma view_grids_ok (channels side_ : Z) (occ : matrix) :
  (0 < side_)%Z -> (0 <= channels)%Z -> Z.of_nat (length occ) = (side_ * side_)%Z ->
  exists gs, view_grids channels side_ occ = inr gs
             /\ gs = map (fun c => rows_of (Z.to_nat side_) (Z.to_nat side_) (channel c occ))
                         (seq 0 (Z.to_nat channels))
             /\ length gs = Z.to_nat channels
             /\ Forall (shaped (Z.to_nat side_) (Z.to_nat side_)) gs.
Proof.
  intros Hs Hc Hl. unfold view_grids.
  destruct (Z.leb_spec side_ 0) as [H|_]; [lia|].
  destruct (Z.ltb_spec channels 0) as [H|_]; [lia|]. cbn [orb].
  rewrite Hl, Z.eqb_refl. eexists. split; [reflexivity|]. split; [reflexivity|]. split.
  - rewrite length_map, length_seq. reflexivity.
  - apply Forall_forall. intros g Hin. apply in_map_iff in Hin. destruct Hin as [c [<- _]].
    split; [apply rows_of_length|]. apply rows_of_widths. rewrite channel_length. nia.
Qed.

Lemma avg_pool2d_ok (k s p : Z) (g : matrix) (r c : nat) :
  shaped r c g -> (0 < r)%nat ->
  (0 < k)%Z -> (0 < s)%Z -> (0 <= p)%Z -> (2 * p <= k)%Z ->
  (k <= Z.of_nat r + 2 * p)%Z -> (k <= Z.of_nat c + 2 * p)%Z ->
  exists g', avg_pool2d k s p g = inr g'
             /\ g' = map (fun i => map (fun j => divq (window g k s p i j) (inject_Z (k * k)))
                                       (zrange ((Z.of_nat c + 2 * p - k) / s + 1)))
                         (zrange ((Z.of_nat r + 2 * p - k) / s + 1))
             /\ shaped (Z.to_nat ((Z.of_nat r + 2 * p - k) / s + 1))
                       (Z.to_nat ((Z.of_nat c + 2 * p - k) / s + 1)) g'.
Proof.
  intros Hg Hr Hk Hs Hp Hkp Hkr Hkc. unfold avg_pool2d. cbv zeta.
  pose proof (shaped_hd r c g Hg Hr) as Hh. destruct Hg as [Hl _].
  plain_types. rewrite Hh, Hl.
  destruct (Z.leb_spec k 0); [lia|]. destruct (Z.leb_spec s 0); [lia|].
  destruct (Z.ltb_spec p 0); [lia|]. destruct (Z.ltb_spec k (2 * p)); [lia|].
  cbn [orb].
  destruct (Z.ltb_spec (Z.of_nat r + 2 * p - k) 0); [lia|].
  destruct (Z.ltb_spec (Z.of_nat c + 2 * p - k) 0); [lia|].
  cbn [orb]. eexists. split; [reflexivity|]. split; [reflexivity|]. split.
  - rewrite length_map, zrange_length. reflexivity.
  - apply Forall_forall. intros row Hin. apply in_map_iff in Hin.
    destruct Hin as [i [<- _]]. rewrite length_map, zrange_length. reflexivity.
Qed.









(** ** The scatter succeeds on indices in range *)

Lemma index_put_ok (w : nat) (ivs : list (Z * vec)) :
  forall occ,
    (forall i v, In (i, v) ivs ->
                 (0 <= i < Z.of_nat (length occ))%Z /\ (length v = w \/ length v = 1%nat)) ->
    exists occ', index_put w occ ivs = inr occ' /\ length occ' = length occ.
Proof.
  induction ivs as [|[i v] ivs IH]; intros occ H.
  - exists occ. split; reflexivity.
  - destruct (H i v (or_introl eq_refl)) as [Hi Hv]. simpl.
    unfold norm_index.
    destruct (Z.leb_spec 0 i); [|lia]. destruct (Z.ltb_spec i (Z.of_nat (length occ))); [|lia].
    cbn [andb]. mred.
    assert (Hb : exists row, broadcast_row w v = inr row).
    { unfold broadcast_row. destruct (Nat.eqb_spec (length v) w); [eexists; reflexivity|].
      destruct Hv as [Hv|Hv]; [contradiction|].
      destruct v as [|x [|y v]]; simpl in Hv; try lia. eexists; reflexivity. }
    destruct Hb as [row Hb]. rewrite Hb. mred.
    destruct (IH (update (Z.to_nat i) row occ)) as [occ' [E L]].
    + intros i' v' Hin. rewrite update_length. apply H. right. exact Hin.
    + exists occ'. split; [exact E|]. rewrite L. apply update_length.
Qed.

Lemma spec_index_bounds (e : Engine) (cx cy : Z) :
  (0 <= cx < side e)%Z -> (0 <= cy < side e)%Z ->
  (0 <= spec_index cx cy e < side e * side e)%Z.
Proof. unfold spec_index. fold (side e). nia. Qed.

Lemma zeros2_ok (r c : Z) :
  (0 <= r)%Z -> (0 <= c)%Z ->
  zeros2 r c = inr (repeat (repeat zero (Z.to_nat c)) (Z.to_nat r)).
Proof.
  intros Hr Hc. unfold zeros2, full2.
  destruct (Z.ltb_spec r 0); [lia|]. destruct (Z.ltb_spec c 0); [lia|]. reflexivity.
Qed.

Lemma cells_eq (e : Engine) : (n e ^ 2 * pool_size e ^ 2 = side e * side e)%Z.
Proof. unfold side. ring. Qed.


Lemma select_true {A : Type} (f : A -> bool) (l : list A) (x : A) :
  In x (select (map f l) l) -> f x = true /\ In x l.
Proof.
  induction l as [|y l IH]; [simpl; tauto|].
  simpl map. rewrite select_cons. destruct (f y) eqn:E; simpl; intros H.
  - destruct H as [<-|H]; [split; [exact E|left; reflexivity]|].
    destruct (IH H) as [H1 H2]. split; [exact H1|right; exact H2].
  - destruct (IH H) as [H1 H2]. split; [exact H1|right; exact H2].
Qed.

Lemma long2_floor2 (e : Engine) (o : pos) :
  (exists vx vy, o = (Some vx, Some vy)) -> range_mask e o = true ->
  long2 o = inr (floor2 o)
  /\ (0 <= spec_index (fst (floor2 o)) (snd (floor2 o)) e < side e * side e)%Z.
Proof.
  intros [vx [vy ->]] H. split; [apply (long2_floor e); exact H|].
  apply range_mask_true in H. destruct H as [Hx Hy]. cbn [fst snd] in *.
  apply no_violation_iff in Hx. apply no_violation_iff in Hy.
  apply spec_index_bounds; assumption.
Qed.

(** ** The per-agent engine returns a descriptor of the normal length *)

Lemma observed_inv (p : pos) : observed p = true -> exists a b, p = (Some a, Some b).
Proof.
  destruct p as [[a|] [b|]]; unfold observed; simpl; try discriminate.
  intros _. exists a, b. reflexivity.
Qed.




Lemma Forall_select {A : Type} (P : A -> Prop) (m : list bool) (l : list A) :
  Forall P l -> Forall P (select m l).
Proof.
  intros H. apply Forall_forall. intros x Hin. apply In_select in Hin.
  rewrite Forall_forall in H. apply H. exact Hin.
Qed.




(** the grid of the per-agent engine is the stack of the ego descriptors *)
Lemma grid_as_rows (M : MathLib) (e : Engine) (hidden_state : matrix) (obs1 obs2 : list pos) :
  Pooling.grid M e hidden_state obs1 obs2
  = (rows <- mapM (ego_descriptor M e hidden_state obs1 obs2) (seq 0 (length obs2)) ;;
     stack rows).
Proof.
  unfold Pooling.grid, ego_descriptor.
  destruct (front e), (type_ e); cbn [negb]; try reflexivity.
  - unfold Pooling.front_directional.
    destruct (Nat.eqb_spec (length obs2) 1) as [E|E]; [|reflexivity].
    rewrite E. cbn [seq mapM].
    destruct (Pooling.occupancy M e (nth 0 obs2 Pooling.nan_pos) None None None); reflexivity.
  - unfold Pooling.directional.
    destruct (Nat.eqb_spec (length obs2) 1) as [E|E]; [|reflexivity].
    rewrite E. cbn [seq mapM].
    destruct (Pooling.occupancy M e (nth 0 obs2 Pooling.nan_pos) None None None); reflexivity.
Qed.


Lemma item_nth {A : Type} (i : nat) (l : list A) (d : A) :
  (i < length l)%nat -> Pooling.item i l = inr (nth i l d).
Proof.
  intros H. unfold Pooling.item. rewrite (nth_error_nth' l d H). reflexivity.
Qed.

Lemma one_cold_length (i k : nat) : length (one_cold i k) = k.
Proof. unfold one_cold. rewrite length_map, length_seq. reflexivity. Qed.

Lemma relative_velocity_ok (obs1 obs2 : list pos) (i : nat) :
  length obs1 = length obs2 -> (i < length obs2)%nat ->
  exists values, Pooling.relative_velocity obs1 obs2 i = inr values
                 /\ values = map (fun v => pos_row (psub v (nth i (rows_sub obs2 obs1)
                                                                Pooling.nan_pos)))
                                 (select (one_cold i (length obs2)) (rows_sub obs2 obs1))
                 /\ length values = length (select (one_cold i (length obs2)) obs2)
                 /\ Forall (fun v => length v = 2%nat) values.
Proof.
  intros Hl Hi. unfold Pooling.relative_velocity.
  rewrite sub_rows_same_length by (symmetry; exact Hl). mred.
  rewrite masked_same_length by (rewrite one_cold_length, rows_sub_length; auto). mred.
  rewrite (item_nth i _ Pooling.nan_pos) by (rewrite rows_sub_length; auto). mred.
  eexists. split; [reflexivity|]. split; [reflexivity|]. split.
  - rewrite length_map. apply select_length_same. apply rows_sub_length. symmetry. exact Hl.
  - apply Forall_forall. intros v Hin. apply in_map_iff in Hin.
    destruct Hin as [p [<- _]]. reflexivity.
Qed.



(** ** The batched engine, row by row *)

Lemma rows_of_concat {A : Type} (c : nat) (rows : list (list A)) :
  Forall (fun r => length r = c) rows -> rows_of (length rows) c (concat rows) = rows.
Proof.
  induction 1 as [|r rows Hr Hrows IH]; [reflexivity|].
  unfold rows_of in *. simpl length. cbn [seq map concat].
  f_equal.
  - simpl. rewrite firstn_app, Hr, Nat.sub_diag, firstn_all2 by lia.
    simpl. apply app_nil_r.
  - rewrite <- seq_shift, map_map. rewrite <- IH at 2. apply map_ext. intros i.
    replace (S i * c)%nat with (i * c + c)%nat by lia.
    rewrite <- skipn_skipn. f_equal. f_equal.
    rewrite skipn_app, Hr, Nat.sub_diag, skipn_all2 by lia. reflexivity.
Qed.

Lemma select_flat_map {A : Type} (k : nat) (idx : list nat) (t : list (list A)) :
  length t = length idx -> Forall (fun r => length r = k) t ->
  select (flat_map (fun i => one_cold i k) idx) (concat t)
  = concat (map (fun it => select (one_cold (fst it) k) (snd it)) (combine idx t)).
Proof.
  revert t; induction idx as [|i idx IH]; intros [|r t] Hl Ht; simpl in Hl;
    try discriminate; try reflexivity.
  apply Forall_cons_iff in Ht. destruct Ht as [Hr Ht']. simpl.
  rewrite select_app by (rewrite one_cold_length; symmetry; exact Hr).
  rewrite IH by (auto; lia). reflexivity.
Qed.

Lemma map_combine_seq {A B : Type} (f : nat -> A -> B) (d : A) (t : list A) (s : nat) :
  map (fun it => f (fst it) (snd it)) (combine (seq s (length t)) t)
  = map (fun i => f i (nth (i - s) t d)) (seq s (length t)).
Proof.
  revert s; induction t as [|a t IH]; intros s; [reflexivity|].
  simpl length. cbn [seq combine map fst snd]. rewrite Nat.sub_diag. f_equal.
  rewrite IH. apply map_ext_in. intros i Hi. apply in_seq in Hi.
  replace (i - s)%nat with (S (i - S s)) by lia. reflexivity.
Qed.

Lemma select_one_cold_length {A : Type} (i k : nat) (l : list A) :
  length l = k -> (i < k)%nat -> length (select (one_cold i k) l) = (k - 1)%nat.
Proof.
  intros Hl Hi. subst k. rewrite select_one_cold.
  rewrite length_app, length_firstn, length_skipn. lia.
Qed.

(** without its diagonal, row [i] of an (N x N) tensor is the row without
    its [i]-th entry *)
Lemma delete_diagonal_ok {A : Type} (t : list (list A)) (d : list A) :
  t <> [] -> Forall (fun r => length r = length t) t ->
  FastPooling.delete_diagonal (length t) t
  = inr (map (fun i => select (one_cold i (length t)) (nth i t d)) (seq 0 (length t))).
Proof.
  intros Hne Ht. unfold FastPooling.delete_diagonal.
  assert (HN : (0 < length t)%nat) by (destruct t; [congruence|simpl; lia]).
  rewrite masked_same_length.
  2:{ unfold not_eye. rewrite flat_map_concat_map.
      rewrite !(concat_length_uniform (length t)).
      - rewrite length_map, length_seq. reflexivity.
      - exact Ht.
      - apply Forall_map. apply Forall_forall. intros i _. apply one_cold_length. }
  mred. unfold not_eye. rewrite select_flat_map by (rewrite ?length_seq; auto).
  rewrite (map_combine_seq (fun i r => select (one_cold i (length t)) r) d t 0).
  set (rows := map (fun i => select (one_cold i (length t)) (nth (i - 0) t d))
                   (seq 0 (length t))).
  assert (Hrows : Forall (fun r => length r = (length t - 1)%nat) rows).
  { apply Forall_forall. intros r Hin. apply in_map_iff in Hin. destruct Hin as [i [<- Hi]].
    apply in_seq in Hi. apply select_one_cold_length; [|lia].
    rewrite Forall_forall in Ht. apply Ht. apply nth_In. lia. }
  assert (Hlen : length rows = length t) by (unfold rows; rewrite length_map, length_seq; auto).
  unfold reshape.
  destruct (Z.ltb_spec (Z.of_nat (length t)) 0); [lia|].
  destruct (Z.eqb_spec (Z.of_nat (length t) - 1) (-1)); [lia|].
  destruct (Z.ltb_spec (Z.of_nat (length t) - 1) 0); [lia|].
  rewrite (concat_length_uniform (length t - 1)) by exact Hrows. rewrite Hlen.
  destruct (Z.eqb_spec (Z.of_nat (length t) * (Z.of_nat (length t) - 1))
                       (Z.of_nat (length t * (length t - 1)))) as [_|Hx]; [|nia].
  rewrite Nat2Z.id. replace (Z.to_nat (Z.of_nat (length t) - 1)) with (length t - 1)%nat by lia.
  rewrite <- Hlen at 1. rewrite rows_of_concat by exact Hrows.
  unfold rows. apply f_equal. apply map_ext. intros i. rewrite Nat.sub_0_r. reflexivity.
Qed.

Lemma entry_placed (e : Engine) (s : Q) (r : pos) (v : vec) :
  observed r = true -> FastPooling.entry e s (r, v) = inr (placed e s (r, v)).
Proof.
  intros Hr. apply observed_inv in Hr. destruct Hr as [a [b ->]].
  unfold FastPooling.entry, placed, coord. cbn [fst snd]. cbv zeta.
  destruct (scaled_value s (half e) a) as [vx [Evx _]].
  destruct (scaled_value s (half e) b) as [vy [Evy _]].
  plain_types. rewrite Evx, Evy.
  destruct (range_mask e (Some vx, Some vy)) eqn:E.
  - rewrite (long2_floor e vx vy E). reflexivity.
  - reflexivity.
Qed.

Lemma entries_placed (e : Engine) (s : Q) (rel : list pos) (vals : matrix) :
  Forall (fun r => observed r = true) rel -> length rel = length vals ->
  FastPooling.entries e s rel vals = inr (map (placed e s) (combine rel vals)).
Proof.
  intros Hrel Hlen. unfold FastPooling.entries.
  plain_types. rewrite Hlen, Nat.eqb_refl. apply mapM_inr.
  intros [r v] Hin. apply entry_placed. apply in_combine_l in Hin.
  rewrite Forall_forall in Hrel. apply Hrel. exact Hin.
Qed.

Lemma placed_ok (e : Engine) (s : Q) (r : pos) (v : vec) :
  (0 < side e)%Z -> observed r = true -> fits e v ->
  (0 <= fst (placed e s (r, v)) < side e * side e)%Z /\ fits e (snd (placed e s (r, v))).
Proof.
  intros Hs Hr Hv. apply observed_inv in Hr. destruct Hr as [a [b ->]].
  unfold placed, coord. cbn [fst snd].
  destruct (scaled_value s (half e) a) as [vx [Evx _]].
  destruct (scaled_value s (half e) b) as [vy [Evy _]].
  plain_types. rewrite Evx, Evy.
  destruct (range_mask e (Some vx, Some vy)) eqn:E; cbn [fst snd].
  - split; [|exact Hv]. 
    destruct (long2_floor2 e (Some vx, Some vy)) as [_ Hb]; [eauto|exact E|].
    cbn [floor2 fst snd] in *. rewrite linear_spec. exact Hb.
  - split; [nia|]. unfold fits in *. rewrite length_map. exact Hv.
Qed.

Lemma FastPooling_dense_row_ok (e : Engine) (ivs : list (Z * vec)) :
  valid e ->
  (forall i v, In (i, v) ivs -> (0 <= i < side e * side e)%Z /\ fits e v) ->
  exists occ, FastPooling.dense_row e ivs = inr occ /\ length occ = cells e.
Proof.
  intros (Hc & Hn & Hp & Hd) H. unfold FastPooling.dense_row.
  rewrite cells_eq, zeros2_ok by nia. mred.
  destruct (index_put_ok (Z.to_nat (pooling_dim e)) ivs
              (repeat (repeat zero (Z.to_nat (pooling_dim e))) (Z.to_nat (side e * side e))))
    as [occ [E L]].
  - intros i v Hin. rewrite repeat_length, Z2Nat.id by nia. apply H. exact Hin.
  - exists occ. split; [exact E|]. rewrite L, repeat_length. reflexivity.
Qed.


Lemma mapM_map {A B C : Type} (f : B -> res C) (g : A -> B) (l : list A) :
  mapM f (map g l) = mapM (fun x => f (g x)) l.
Proof.
  induction l as [|x l IH]; [reflexivity|]. simpl. rewrite IH. reflexivity.
Qed.



Lemma pairwise_rows (t : list pos) (i : nat) :
  select (one_cold i (length (FastPooling.pairwise t)))
         (nth i (FastPooling.pairwise t) (map (fun tj => psub tj Pooling.nan_pos) t))
  = map (fun q => psub q (nth i t Pooling.nan_pos)) (select (one_cold i (length t)) t).
Proof.
  unfold FastPooling.pairwise. rewrite length_map.
  rewrite (map_nth (fun ti => map (fun tj => psub tj ti) t) t Pooling.nan_pos i).
  apply select_map.
Qed.

Lemma delete_diagonal_pairwise (t : list pos) :
  t <> [] ->
  FastPooling.delete_diagonal (length t) (FastPooling.pairwise t)
  = inr (map (offsets t) (seq 0 (length t))).
Proof.
  intros Hne.
  assert (Hl : length (FastPooling.pairwise t) = length t)
    by (unfold FastPooling.pairwise; apply length_map).
  rewrite <- Hl at 1.
  rewrite (delete_diagonal_ok (FastPooling.pairwise t)
             (map (fun tj => psub tj Pooling.nan_pos) t)).
  - rewrite Hl. f_equal. apply map_ext. intros i. rewrite <- Hl at 1.
    rewrite pairwise_rows. reflexivity.
  - intros E. rewrite E in Hl. simpl in Hl. destruct t; [congruence|discriminate].
  - rewrite Hl. unfold FastPooling.pairwise. apply Forall_map.
    apply Forall_forall. intros ti _. apply length_map.
Qed.


Lemma Forall_repeat {A : Type} (P : A -> Prop) (x : A) (k : nat) :
  P x -> Forall P (repeat x k).
Proof. intros H. apply Forall_forall. intros y Hy. apply repeat_spec in Hy. subst. exact H. Qed.

Lemma concat_repeat_length {A : Type} (l : list A) (k : nat) :
  length (concat (repeat l k)) = (k * length l)%nat.
Proof.
  rewrite (concat_length_uniform (length l)).
  - rewrite repeat_length. reflexivity.
  - apply Forall_repeat. reflexivity.
Qed.

Lemma Forall_concat_repeat {A : Type} (P : A -> Prop) (l : list A) (k : nat) :
  Forall P l -> Forall P (concat (repeat l k)).
Proof.
  intros H. induction k as [|k IH]; [constructor|].
  simpl. apply Forall_app. split; assumption.
Qed.

Lemma nth_repeat_lt {A : Type} (x d : A) (i k : nat) :
  (i < k)%nat -> nth i (repeat x k) d = x.
Proof.
  revert i; induction k as [|k IH]; intros [|i] H; simpl; try lia; auto.
  apply IH. lia.
Qed.

(** [hidden_state.repeat(n, 1).view(n, n, -1)] of an (n x w) tensor is the
    tensor [n] times *)
Lemma repeat_view_ok (h : matrix) (w : nat) :
  h <> [] -> Forall (fun v => length v = w) h ->
  FastPooling.repeat_view (length h) h = inr (repeat h (length h)).
Proof.
  intros Hne Hw. unfold FastPooling.repeat_view. cbv zeta. plain_types.
  assert (HN : (0 < length h)%nat) by (destruct h; [congruence|simpl; lia]).
  set (rows := concat (repeat h (length h))).
  assert (Hrl : length rows = (length h * length h)%nat) by apply concat_repeat_length.
  assert (Hrw : Forall (fun v => length v = w) rows) by (apply Forall_concat_repeat; exact Hw).
  assert (Hfl : length (concat rows) = (length h * length h * w)%nat).
  { rewrite (concat_length_uniform w) by exact Hrw. rewrite Hrl. reflexivity. }
  assert (Hcells : rows_of (length h * length h) w (concat rows) = rows).
  { rewrite <- Hrl. apply rows_of_concat. exact Hrw. }
  assert (Hgrid : rows_of (length h) (length h) rows = repeat h (length h)).
  { pose proof (rows_of_concat (length h) (repeat h (length h))) as H.
    rewrite repeat_length in H. apply H. apply Forall_repeat. reflexivity. }
  unfold reshape.
  destruct (Z.ltb_spec (Z.of_nat (length h * length h)) 0); [lia|].
  change ((-1 =? -1)%Z) with true. cbv iota.
  destruct (Z.eqb_spec (Z.of_nat (length h * length h)) 0); [nia|].
  rewrite Hfl.
  assert (Hmod : (Z.of_nat (length h * length h * w) mod Z.of_nat (length h * length h) = 0)%Z).
  { rewrite Nat2Z.inj_mul. rewrite Z.mul_comm. apply Z.mod_mul. lia. }
  rewrite Hmod. change ((0 =? 0)%Z) with true. cbv iota. mred. rewrite Nat2Z.id.
  replace (length h * length h * w)%nat with (w * (length h * length h))%nat by lia.
  rewrite Nat.div_mul by nia.
  rewrite Hcells, Hgrid. reflexivity.
Qed.





Lemma offsets_length (obs : list pos) (i : nat) :
  (i < length obs)%nat -> length (offsets obs i) = (length obs - 1)%nat.
Proof.
  intros Hi. unfold offsets. rewrite length_map. apply select_one_cold_length; auto.
Qed.




(** ** Pooling a grid of zeros *)














(** ** One agent *)






(** ** The two scatters *)



Lemma map_const {A B : Type} (c : B) (l : list A) : map (fun _ => c) l = repeat c (length l).
Proof. induction l; simpl; congruence. Qed.

Lemma broadcast_zero_like (e : Engine) (v : vec) :
  fits e v ->
  broadcast_row (Z.to_nat (pooling_dim e)) (map (fun _ => zero) v)
  = inr (repeat zero (Z.to_nat (pooling_dim e))).
Proof.
  intros Hv. unfold broadcast_row. rewrite length_map, map_const.
  destruct (Nat.eqb_spec (length v) (Z.to_nat (pooling_dim e))) as [E|E].
  - rewrite E. reflexivity.
  - destruct Hv as [Hv|Hv]; [contradiction|].
    destruct v as [|x [|y v]]; simpl in Hv; try lia. reflexivity.
Qed.



(** ** The engines side by side *)







Lemma select_all_of {A B : Type} (f : A -> bool) (l : list A) :
  forall l' : list B,
    (forall x, In x l -> f x = true) -> length l = length l' ->
    select (map f l) l' = l'.
Proof.
  induction l as [|x l IH]; intros [|y l'] Hf Hl; simpl in Hl; try discriminate;
    [reflexivity|].
  cbn [map]. rewrite select_cons, (Hf x (or_introl eq_refl)). f_equal.
  apply IH; [|lia]. intros z Hz. apply Hf. right. exact Hz.
Qed.

Lemma observed_not_nan (p : pos) : observed p = true -> isnan (fst p) = false.
Proof.
  unfold observed. intros H. apply andb_true_iff in H. destruct H as [H _].
  apply negb_true_iff in H. exact H.
Qed.



Lemma mapM_nth {A B : Type} (f : A -> res B) (d : A) (d' : B) (l : list A) :
  forall (l' : list B) (i : nat),
    mapM f l = inr l' -> (i < length l)%nat -> f (nth i l d) = inr (nth i l' d').
Proof.
  induction l as [|x l IH]; intros l' i E Hi; simpl in Hi; [lia|].
  cbn [mapM] in E. destruct (f x) as [err|y] eqn:Ex; [discriminate|]. mred.
  destruct (mapM f l) as [err|ys] eqn:El; [discriminate|]. mred. injection E as <-.
  destruct i as [|i]; [exact Ex|]. cbn [nth]. apply (IH ys i eq_refl). lia.
Qed.






(** ** Egos without neighbours in the grid *)










(** * Further properties of the code *)

(** ** [one_cold] *)

Lemma map_seq_all_true (i s k : nat) :
  (i < s)%nat -> map (fun j => negb (j =? i)%nat) (seq s k) = repeat true k.
Proof.
  revert s. induction k as [|k IH]; intros s H; [reflexivity|].
  cbn [seq map repeat]. destruct (Nat.eqb_spec s i); [lia|].
  cbn [negb]. f_equal. apply IH. lia.
Qed.

Lemma update_repeat_true (k : nat) :
  forall s i, (i < k)%nat ->
              update i false (repeat true k) = map (fun j => negb (j =? s + i)%nat) (seq s k).
Proof.
  induction k as [|k IH]; intros s i H; [lia|].
  cbn [repeat seq map]. destruct i as [|i].
  - cbn [update]. rewrite Nat.add_0_r, Nat.eqb_refl. cbn [negb]. f_equal.
    symmetry. apply map_seq_all_true. lia.
  - cbn [update]. destruct (Nat.eqb_spec s (s + S i)); [lia|]. cbn [negb]. f_equal.
    rewrite (IH (S s) i) by lia. apply map_ext. intros j.
    replace (S s + i)%nat with (s + S i)%nat by lia. reflexivity.
Qed.

(** X1.  [one_cold(i, n)] as Python calls it: for [0 <= i < n] it is the
    mask of [n] entries that is false at [i] only, and indexing a tensor of
    [n] rows with it drops row [i] and keeps the order; an index in
    [[-n, 0)] counts from the end; any other index raises IndexError. *)
Theorem one_cold_by_index (i n : Z) :
  (0 <= n)%Z ->
  ((0 <= i < n)%Z ->
   Indexed.one_cold i n = inr (one_cold (Z.to_nat i) (Z.to_nat n)))
  /\ ((- n <= i < 0)%Z ->
      Indexed.one_cold i n = inr (one_cold (Z.to_nat (i + n)) (Z.to_nat n)))
  /\ ((i < - n \/ n <= i)%Z -> Indexed.one_cold i n = inl IndexError)
  /\ (forall (A : Type) (l : list A),
         Z.of_nat (length l) = n -> (0 <= i < n)%Z ->
         select (one_cold (Z.to_nat i) (Z.to_nat n)) l
         = firstn (Z.to_nat i) l ++ skipn (S (Z.to_nat i)) l).
Proof.
  intros Hn. unfold Indexed.one_cold.
  destruct (Z.ltb_spec n 0) as [|_]; [lia|]. mred.
  unfold norm_index. rewrite repeat_length, Z2Nat.id by exact Hn.
  repeat split.
  - intros H. destruct (Z.leb_spec 0 i); [|lia]. destruct (Z.ltb_spec i n); [|lia].
    cbn [andb]. mred. f_equal. apply (update_repeat_true _ 0%nat). lia.
  - intros H. destruct (Z.leb_spec 0 i); [lia|]. cbn [andb].
    destruct (Z.leb_spec (- n) i); [|lia]. destruct (Z.ltb_spec i 0); [|lia].
    cbn [andb]. mred. f_equal. apply (update_repeat_true _ 0%nat). lia.
  - intros H. destruct (Z.leb_spec 0 i), (Z.ltb_spec i n), (Z.leb_spec (- n) i),
      (Z.ltb_spec i 0); cbn [andb]; try reflexivity; lia.
  - intros A l Hl H. rewrite <- Hl, Nat2Z.id. apply select_one_cold.
Qed.

Lemma one_cold_by_index_witness :
  Indexed.one_cold 1 3 = inr [true; false; true]
  /\ Indexed.one_cold (-1) 3 = inr [true; true; false]
  /\ Indexed.one_cold 3 3 = inl IndexError.
Proof.
  destruct (one_cold_by_index 1 3 ltac:(lia)) as [H1 _].
  destruct (one_cold_by_index (-1) 3 ltac:(lia)) as [_ [H2 _]].
  destruct (one_cold_by_index 3 3 ltac:(lia)) as [_ [_ [H3 _]]].
  split; [exact (H1 ltac:(lia))|]. split; [exact (H2 ltac:(lia))|].
  apply H3. right. lia.
Defined.

(** ** What the batched engine hands to [occupancy] *)

Lemma nth_map_seq {A : Type} (f : nat -> A) (k i : nat) (d : A) :
  (i < k)%nat -> nth i (map f (seq 0 k)) d = f i.
Proof.
  intros H. rewrite (nth_indep _ d (f 0%nat)) by (rewrite length_map, length_seq; exact H).
  rewrite (map_nth f), seq_nth by exact H. reflexivity.
Qed.

(** X2.  The offsets of the batched engine.  On a scene of at least one
    agent, the pairwise differences with the diagonal masked out and
    reshaped give, for ego [i], the [n - 1] offsets [obs[j] - obs[i]],
    [j <> i], in index order: the rows [obs[one_cold(i, n)] - obs[i]] of
    the per-agent engine. *)
Theorem batched_offsets (obs : list pos) :
  obs <> [] ->
  exists relative,
    FastPooling.delete_diagonal (length obs) (FastPooling.pairwise obs) = inr relative
    /\ length relative = length obs
    /\ forall i, (i < length obs)%nat ->
                 nth i relative []
                 = map (fun q => psub q (nth i obs Pooling.nan_pos))
                       (select (one_cold i (length obs)) obs)
                 /\ length (nth i relative []) = (length obs - 1)%nat.
Proof.
  intros Hne. rewrite (delete_diagonal_pairwise obs Hne). eexists. split; [reflexivity|].
  split; [rewrite length_map, length_seq; reflexivity|].
  intros i Hi. rewrite nth_map_seq by exact Hi. split; [reflexivity|].
  apply offsets_length. exact Hi.
Qed.

Lemma batched_offsets_witness :
  exists relative,
    FastPooling.delete_diagonal 3 (FastPooling.pairwise [P 0 0; P 1 0; P 0 2]) = inr relative
    /\ length relative = 3%nat
    /\ forall i, (i < 3)%nat ->
                 nth i relative []
                 = map (fun q => psub q (nth i [P 0 0; P 1 0; P 0 2] Pooling.nan_pos))
                       (select (one_cold i 3) [P 0 0; P 1 0; P 0 2])
                 /\ length (nth i relative []) = 2%nat.
Proof.
  apply (batched_offsets [P 0 0; P 1 0; P 0 2]). discriminate.
Defined.

Lemma social_as_occupancy (e : Engine) (hidden_state : matrix) (obs : list pos) (w : nat) :
  (2 <= length obs)%nat -> length hidden_state = length obs ->
  Forall (fun v => length v = w) hidden_state ->
  FastPooling.social e hidden_state obs
  = FastPooling.occupancy e obs
      (Some (map (fun i => select (one_cold i (length obs)) hidden_state)
                 (seq 0 (length obs)))).
Proof.
  intros HN Hl Hw.
  unfold FastPooling.social. destruct (Nat.eqb_spec (length obs) 1); [lia|].
  rewrite <- Hl.
  assert (Hne : hidden_state <> []) by (intros E; rewrite E in Hl; simpl in Hl; lia).
  rewrite (repeat_view_ok hidden_state _ Hne Hw). mred.
  pose proof (delete_diagonal_ok (repeat hidden_state (length hidden_state)) []) as Hdd.
  rewrite repeat_length in Hdd. rewrite Hdd; clear Hdd.
  + mred. do 2 f_equal. apply map_ext_in. intros i Hi. apply in_seq in Hi.
    rewrite nth_repeat_lt by lia. reflexivity.
  + intros E. apply (f_equal (@length _)) in E. rewrite repeat_length in E.
    simpl in E. lia.
  + apply Forall_repeat. reflexivity.
Qed.

Lemma directional_as_occupancy (e : Engine) (obs1 obs2 : list pos) :
  (2 <= length obs2)%nat -> length obs1 = length obs2 ->
  FastPooling.directional e obs1 obs2
  = FastPooling.occupancy e obs2
      (Some (map (fun i => map (fun v => pos_row (psub v (nth i (rows_sub obs2 obs1)
                                                           Pooling.nan_pos)))
                               (select (one_cold i (length obs2)) (rows_sub obs2 obs1)))
                 (seq 0 (length obs2)))).
Proof.
  intros HN Hl.
  unfold FastPooling.directional. destruct (Nat.eqb_spec (length obs2) 1); [lia|].
  rewrite sub_rows_same_length by (symmetry; exact Hl). mred.
  assert (Hvl : length (rows_sub obs2 obs1) = length obs2)
    by (apply rows_sub_length; symmetry; exact Hl).
  rewrite <- Hvl at 1.
  rewrite delete_diagonal_pairwise
    by (intros E; rewrite E in Hvl; simpl in Hvl; lia). mred.
  do 2 f_equal. rewrite map_map, Hvl. apply map_ext. intros i.
  unfold offsets. rewrite map_map, Hvl. reflexivity.
Qed.

(** X3.  [FastPooling.social] on two agents or more, with one hidden state
    of non-zero width per agent: the repeated, viewed, masked and reshaped
    hidden states handed to [occupancy] are, for ego [i],
    [hidden_state[one_cold(i, n)]], the values [Pooling.social] passes. *)
Theorem batched_social_values (e : Engine) (hidden_state : matrix) (obs : list pos)
        (w : nat) :
  (2 <= length obs)%nat -> length hidden_state = length obs -> (0 < w)%nat ->
  Forall (fun v => length v = w) hidden_state ->
  exists vals,
    mapM (fun i => masked (one_cold i (length obs)) hidden_state) (seq 0 (length obs))
    = inr vals
    /\ FastPooling.social e hidden_state obs = FastPooling.occupancy e obs (Some vals).
Proof.
  intros HN Hl _ Hw.
  exists (map (fun i => select (one_cold i (length obs)) hidden_state) (seq 0 (length obs))).
  split.
  - apply mapM_inr. intros i _. apply masked_same_length.
    rewrite one_cold_length. symmetry. exact Hl.
  - apply (social_as_occupancy e hidden_state obs w HN Hl Hw).
Qed.

Lemma batched_social_values_witness :
  exists vals,
    mapM (fun i => masked (one_cold i 2) [[fin 3]; [fin 5]]) (seq 0 2) = inr vals
    /\ FastPooling.social (engine 2 2 Social 1 0 1 false) [[fin 3]; [fin 5]] [P 0 0; P 1 0]
       = FastPooling.occupancy (engine 2 2 Social 1 0 1 false) [P 0 0; P 1 0] (Some vals).
Proof.
  apply (batched_social_values (engine 2 2 Social 1 0 1 false) [[fin 3]; [fin 5]]
                               [P 0 0; P 1 0] 1).
  - simpl. lia.
  - reflexivity.
  - lia.
  - repeat constructor.
Defined.

(** X4.  [FastPooling.directional] on two agents or more with matching
    scenes: the values handed to [occupancy] are, for ego [i], the relative
    velocities [(obs2 - obs1)[one_cold(i, n)] - (obs2 - obs1)[i]] that
    [Pooling.directional] computes. *)
Theorem batched_directional_values (e : Engine) (obs1 obs2 : list pos) :
  (2 <= length obs2)%nat -> length obs1 = length obs2 ->
  exists vals,
    mapM (Pooling.relative_velocity obs1 obs2) (seq 0 (length obs2)) = inr vals
    /\ FastPooling.directional e obs1 obs2 = FastPooling.occupancy e obs2 (Some vals).
Proof.
  intros HN Hl.
  exists (map (fun i => map (fun v => pos_row (psub v (nth i (rows_sub obs2 obs1)
                                                         Pooling.nan_pos)))
                            (select (one_cold i (length obs2)) (rows_sub obs2 obs1)))
              (seq 0 (length obs2))).
  split.
  - apply mapM_inr. intros i Hi. apply in_seq in Hi.
    destruct (relative_velocity_ok obs1 obs2 i Hl) as [values [E [-> _]]]; [lia|].
    exact E.
  - apply (directional_as_occupancy e obs1 obs2 HN Hl).
Qed.

Lemma batched_directional_values_witness :
  exists vals,
    mapM (Pooling.relative_velocity [P 0 0; P 1 0] [P 0 1; P 2 0]) (seq 0 2) = inr vals
    /\ FastPooling.directional (engine 2 2 Directional 1 0 2 false) [P 0 0; P 1 0]
                               [P 0 1; P 2 0]
       = FastPooling.occupancy (engine 2 2 Directional 1 0 2 false) [P 0 1; P 2 0]
                               (Some vals).
Proof.
  apply (batched_directional_values (engine 2 2 Directional 1 0 2 false)
                                    [P 0 0; P 1 0] [P 0 1; P 2 0]).
  - simpl. lia.
  - reflexivity.
Defined.

(** ** Scenes of unequal sizes *)

Lemma mapM_first_raises {A B : Type} (f : A -> res B) (x : A) (l : list A) (err : exn) :
  f x = inl err -> mapM f (x :: l) = inl err.
Proof. intros H. cbn [mapM]. rewrite H. reflexivity. Qed.

Lemma seq_from_zero (k : nat) : (0 < k)%nat -> seq 0 k = 0%nat :: seq 1 (k - 1).
Proof. destruct k; [lia|]. intros _. cbn [seq]. do 2 f_equal. lia. Qed.

Lemma sub_rows_mismatch (a b : list pos) :
  (2 <= length a)%nat -> length b <> length a -> length b <> 1%nat ->
  sub_rows a b = inl RuntimeError.
Proof.
  intros Ha Hne Hb. unfold sub_rows.
  destruct (Nat.eqb_spec (length a) (length b)); [congruence|].
  destruct a as [|x [|x' a]]; simpl in Ha; try lia.
  destruct b as [|y [|y' b]]; simpl in Hb; try lia; reflexivity.
Qed.

(** X5.  The directional variant subtracts the two scenes: with two agents
    or more, a scene [obs1] whose number of rows is neither that of [obs2]
    nor one makes both engines raise RuntimeError (one row is broadcast). *)
Theorem directional_needs_matching_scenes (M : MathLib) (e : Engine) (obs1 obs2 : list pos) :
  (2 <= length obs2)%nat -> length obs1 <> length obs2 -> length obs1 <> 1%nat ->
  Pooling.directional M e obs1 obs2 = inl RuntimeError
  /\ Pooling.front_directional M e obs1 obs2 = inl RuntimeError
  /\ FastPooling.directional e obs1 obs2 = inl RuntimeError.
Proof.
  intros HN Hne H1.
  pose proof (sub_rows_mismatch obs2 obs1 HN Hne H1) as Hsub.
  assert (Hv : forall i, Pooling.relative_velocity obs1 obs2 i = inl RuntimeError).
  { intros i. unfold Pooling.relative_velocity. rewrite Hsub. reflexivity. }
  unfold Pooling.directional, Pooling.front_directional, FastPooling.directional.
  destruct (Nat.eqb_spec (length obs2) 1); [lia|].
  rewrite seq_from_zero by lia. repeat split.
  - rewrite (mapM_first_raises _ _ _ RuntimeError); [reflexivity|].
    unfold Pooling.directional_row. rewrite Hv. reflexivity.
  - rewrite (mapM_first_raises _ _ _ RuntimeError); [reflexivity|].
    unfold Pooling.front_directional_row. rewrite Hv. reflexivity.
  - rewrite Hsub. reflexivity.
Qed.

Lemma directional_needs_matching_scenes_witness :
  Pooling.directional axis_math (engine 2 2 Directional 1 0 2 false)
                      [P 0 0; P 1 0; P 2 0] [P 0 1; P 2 0] = inl RuntimeError
  /\ Pooling.front_directional axis_math (engine 2 2 Directional 1 0 2 false)
                               [P 0 0; P 1 0; P 2 0] [P 0 1; P 2 0] = inl RuntimeError
  /\ FastPooling.directional (engine 2 2 Directional 1 0 2 false)
                             [P 0 0; P 1 0; P 2 0] [P 0 1; P 2 0] = inl RuntimeError.
Proof.
  apply (directional_needs_matching_scenes axis_math (engine 2 2 Directional 1 0 2 false)
                                           [P 0 0; P 1 0; P 2 0] [P 0 1; P 2 0]).
  - simpl. lia.
  - simpl. lia.
  - simpl. lia.
Defined.

(** X6.  The social variant of the per-agent engine indexes the hidden
    states with a mask over the agents: on a non-empty scene, a number of
    hidden states other than the number of agents raises IndexError, in
    front mode too. *)
Theorem social_needs_one_hidden_state_per_agent (M : MathLib) (e : Engine)
        (hidden_state : matrix) (obs obs1 : list pos) :
  obs <> [] -> length hidden_state <> length obs ->
  Pooling.social M e hidden_state obs = inl IndexError
  /\ Pooling.front_social M e hidden_state obs obs1 = inl IndexError.
Proof.
  intros Hne Hl.
  assert (Hm : forall i, masked (one_cold i (length obs)) hidden_state = inl IndexError).
  { intros i. unfold masked. rewrite one_cold_length.
    destruct (Nat.eqb_spec (length obs) (length hidden_state)); [congruence|reflexivity]. }
  unfold Pooling.social, Pooling.front_social.
  rewrite seq_from_zero by (destruct obs; [congruence|simpl; lia]). split.
  - rewrite (mapM_first_raises _ _ _ IndexError); [reflexivity|].
    unfold Pooling.social_row. rewrite Hm. reflexivity.
  - rewrite (mapM_first_raises _ _ _ IndexError); [reflexivity|].
    unfold Pooling.front_social_row. rewrite Hm. reflexivity.
Qed.

Lemma social_needs_one_hidden_state_per_agent_witness :
  Pooling.social axis_math (engine 2 2 Social 1 0 1 false) [[fin 3]] [P 0 0; P 1 0]
  = inl IndexError
  /\ Pooling.front_social axis_math (engine 2 2 Social 1 0 1 false) [[fin 3]]
                          [P 0 0; P 1 0] [P 0 0; P 1 0] = inl IndexError.
Proof.
  apply (social_needs_one_hidden_state_per_agent axis_math (engine 2 2 Social 1 0 1 false)
           [[fin 3]] [P 0 0; P 1 0] [P 0 0; P 1 0]).
  - discriminate.
  - simpl. lia.
Defined.

(** ** What a descriptor does not depend on *)



Lemma select_skip_update {A : Type} (v : A) (h : list A) :
  forall (s i k : nat),
    select (map (fun j => negb (j =? s + i)%nat) (seq s k)) (update i v h)
    = select (map (fun j => negb (j =? s + i)%nat) (seq s k)) h.
Proof.
  induction h as [|x h IH]; intros s i k; [destruct i; reflexivity|].
  destruct k as [|k]; [reflexivity|]. cbn [seq map]. destruct i as [|i].
  - cbn [update]. rewrite !select_cons, Nat.add_0_r, Nat.eqb_refl. reflexivity.
  - cbn [update]. rewrite !select_cons.
    replace (s + S i)%nat with (S s + i)%nat by lia. rewrite (IH (S s) i k). reflexivity.
Qed.

Lemma select_one_cold_update {A : Type} (v : A) (h : list A) (i k : nat) :
  select (one_cold i k) (update i v h) = select (one_cold i k) h.
Proof. apply (select_skip_update v h 0 i k). Qed.

Lemma masked_one_cold_update {A : Type} (v : A) (h : list A) (i k : nat) :
  masked (one_cold i k) (update i v h) = masked (one_cold i k) h.
Proof.
  unfold masked. rewrite update_length, select_one_cold_update. reflexivity.
Qed.

(** X8.  In the per-agent engine the descriptor of ego [i] does not depend
    on the hidden state of ego [i]: replacing row [i] of [hidden_state]
    leaves it unchanged. *)
Theorem own_hidden_state_is_not_pooled (M : MathLib) (e : Engine) (hidden_state : matrix)
        (v : vec) (obs1 obs2 : list pos) (i : nat) :
  ego_descriptor M e (update i v hidden_state) obs1 obs2 i
  = ego_descriptor M e hidden_state obs1 obs2 i.
Proof.
  unfold ego_descriptor, Pooling.social_row, Pooling.front_social_row.
  rewrite masked_one_cold_update. reflexivity.
Qed.





(** ** Moved scenes *)






















(** ** The scatter, cell by cell *)

Lemma nth_update_same {A : Type} (x d : A) (l : list A) :
  forall k, (k < length l)%nat -> nth k (update k x l) d = x.
Proof.
  induction l as [|y l IH]; intros k H; simpl in H; [lia|].
  destruct k; [reflexivity|]. cbn [update nth]. apply IH. lia.
Qed.

Lemma nth_update_diff {A : Type} (x d : A) (l : list A) :
  forall i k, i <> k -> nth k (update i x l) d = nth k l d.
Proof.
  induction l as [|y l IH]; intros i k H; [destruct i; reflexivity|].
  destruct i, k; try reflexivity; [congruence|].
  cbn [update nth]. apply IH. congruence.
Qed.

(** after the scatter, a cell holds the row written to it last, or what it
    held before *)
Lemma index_put_lookup (w : nat) (ivs : list (Z * vec)) (d : vec) :
  forall occ occ',
    index_put w occ ivs = inr occ' ->
    (forall i v, In (i, v) ivs -> (0 <= i < Z.of_nat (length occ))%Z) ->
    forall k, (0 <= k < Z.of_nat (length occ))%Z ->
              match last_write k ivs with
              | Some v => broadcast_row w v = inr (nth (Z.to_nat k) occ' d)
              | None => nth (Z.to_nat k) occ' d = nth (Z.to_nat k) occ d
              end.
Proof.
  induction ivs as [|[i v] rest IH]; intros occ occ' E Hin k Hk.
  - cbn in E. injection E as <-. reflexivity.
  - cbn [index_put] in E.
    assert (Hi : (0 <= i < Z.of_nat (length occ))%Z) by (apply (Hin i v); left; reflexivity).
    unfold norm_index in E.
    destruct (Z.leb_spec 0 i); [|lia]. destruct (Z.ltb_spec i (Z.of_nat (length occ))); [|lia].
    cbn [andb] in E. mred.
    destruct (broadcast_row w v) as [err|row] eqn:Eb; [discriminate|]. mred.
    assert (Hin' : forall i0 v0, In (i0, v0) rest ->
                   (0 <= i0 < Z.of_nat (length (update (Z.to_nat i) row occ)))%Z).
    { intros i0 v0 H1. rewrite update_length. apply (Hin i0 v0). right. exact H1. }
    assert (Hk' : (0 <= k < Z.of_nat (length (update (Z.to_nat i) row occ)))%Z)
      by (rewrite update_length; exact Hk).
    specialize (IH _ _ E Hin' k Hk').
    cbn [last_write]. destruct (last_write k rest) as [v'|]; [exact IH|].
    destruct (Z.eqb_spec i k) as [->|Hne].
    + rewrite IH, nth_update_same by lia. exact Eb.
    + rewrite IH. apply nth_update_diff. lia.
Qed.

Lemma in_range_pairs_of (e : Engine) (c : pos -> pos) (oxy : list pos) :
  forall vals : matrix,
    length oxy = length vals ->
    combine (map (linear e)
                 (map floor2 (select (map (range_mask e) (map c oxy)) (map c oxy))))
            (select (map (range_mask e) (map c oxy)) vals)
    = map (fun qv => (linear e (floor2 (c (fst qv))), snd qv))
          (filter (fun qv => range_mask e (c (fst qv))) (combine oxy vals)).
Proof.
  induction oxy as [|q oxy IH]; intros [|v vals] Hl; simpl in Hl; try discriminate;
    [reflexivity|].
  cbn [map combine filter fst snd]. rewrite !select_cons.
  destruct (range_mask e (c q)).
  - cbn [map combine fst snd]. f_equal. apply IH. lia.
  - apply IH. lia.
Qed.

(** X11.  The dense sub-grid of the per-agent engine, cell by cell: cell [k]
    holds the value row of the last in-range neighbour, in index order,
    whose linear index is [k], and the zero row when there is none. *)
Theorem dense_grid_holds_last_write (M : MathLib) (e : Engine) (xy : pos)
        (oxy : list pos) (vals occ : matrix) (past : option pos) (c : pos -> pos) :
  (0 < side e)%Z ->
  Pooling.coordinate M e xy past = inr c ->
  Forall (fun q => exists vx vy, c q = (Some vx, Some vy)) oxy ->
  length vals = length oxy ->
  Pooling.dense_observed M e xy oxy vals past = inr (Some occ) ->
  forall k, (0 <= k < side e * side e)%Z ->
            match last_write k
                    (map (fun qv => (linear e (floor2 (c (fst qv))), snd qv))
                         (filter (fun qv => range_mask e (c (fst qv))) (combine oxy vals)))
            with
            | Some v => broadcast_row (Z.to_nat (pooling_dim e)) v
                        = inr (nth (Z.to_nat k) occ [])
            | None => nth (Z.to_nat k) occ [] = repeat zero (Z.to_nat (pooling_dim e))
            end.
Proof.
  intros Hside Hc Hfin Hlen E k Hk.
  unfold Pooling.dense_observed, Pooling.grid_coordinates in E. rewrite Hc in E. mred.
  destruct (length oxy =? 0)%nat; [discriminate|].
  set (oij := map c oxy) in *.
  assert (Hsel : forall o, In o (select (map (range_mask e) oij) oij) ->
                 long2 o = inr (floor2 o)
                 /\ (0 <= spec_index (fst (floor2 o)) (snd (floor2 o)) e
                     < side e * side e)%Z).
  { intros o Hin. apply select_true in Hin. destruct Hin as [Hrm Hin].
    apply long2_floor2; [|exact Hrm]. unfold oij in Hin. apply in_map_iff in Hin.
    destruct Hin as [q [<- Hq]]. rewrite Forall_forall in Hfin. apply Hfin. exact Hq. }
  rewrite (mapM_inr long2 floor2) in E by (intros o Hin; apply Hsel; exact Hin). mred.
  rewrite masked_same_length in E by (unfold oij; rewrite !length_map; symmetry; exact Hlen).
  mred.
  destruct (length (map floor2 (select (map (range_mask e) oij) oij)) =? 0)%nat;
    [discriminate|].
  destruct (zeros2 (n e ^ 2 * pool_size e ^ 2) (pooling_dim e)) as [err|occ0] eqn:Ez;
    [discriminate|]. mred.
  apply zeros2_rows in Ez. destruct Ez as [-> [Hr Hd]].
  destruct (index_put _ _ _) as [err|occ1] eqn:Ep in E; [discriminate|]. mred.
  injection E as <-.
  unfold oij in Ep. rewrite (in_range_pairs_of e c oxy vals (eq_sym Hlen)) in Ep.
  rewrite cells_eq in Ep.
  pose proof (index_put_lookup _ _ [] _ _ Ep) as Hlook.
  rewrite repeat_length, Z2Nat.id in Hlook by lia.
  assert (Hidx : forall i v,
             In (i, v) (map (fun qv => (linear e (floor2 (c (fst qv))), snd qv))
                            (filter (fun qv => range_mask e (c (fst qv)))
                                    (combine oxy vals))) ->
             (0 <= i < side e * side e)%Z).
  { intros i v Hin. apply in_map_iff in Hin. destruct Hin as [[q u] [Heq Hq]].
    injection Heq as <- _. apply filter_In in Hq. destruct Hq as [Hq Hrm].
    cbn [fst] in *. apply in_combine_l in Hq.
    rewrite Forall_forall in Hfin. destruct (Hfin q Hq) as [vx [vy Ec]].
    destruct (long2_floor2 e (c q) (ex_intro _ vx (ex_intro _ vy Ec)) Hrm) as [_ Hb].
    destruct (floor2 (c q)) as [cx cy]. rewrite linear_spec. exact Hb. }
  specialize (Hlook Hidx k Hk).
  destruct (last_write k _) as [v|]; [exact Hlook|].
  rewrite Hlook. apply nth_repeat_lt. lia.
Qed.

Lemma dense_grid_holds_last_write_witness :
  match last_write 0
          (map (fun qv => (linear (engine 2 2 Social 1 0 1 false)
                                  (floor2 (coord (engine 2 2 Social 1 0 1 false)
                                                 (2 / inject_Z 1)
                                                 (psub (fst qv) (seen 0 0)))), snd qv))
               (filter (fun qv => range_mask (engine 2 2 Social 1 0 1 false)
                                             (coord (engine 2 2 Social 1 0 1 false)
                                                    (2 / inject_Z 1)
                                                    (psub (fst qv) (seen 0 0))))
                       (combine [seen (-3 # 2) (-3 # 2); seen (-6 # 5) (-6 # 5)]
                                [[fin 5]; [fin 7]])))
  with
  | Some v => broadcast_row (Z.to_nat 1) v
              = inr (nth (Z.to_nat 0) [[fin 7]; [zero]; [zero]; [zero]] [])
  | None => nth (Z.to_nat 0) [[fin 7]; [zero]; [zero]; [zero]] [] = repeat zero (Z.to_nat 1)
  end.
Proof.
  apply (dense_grid_holds_last_write axis_math (engine 2 2 Social 1 0 1 false) (seen 0 0)
           [seen (-3 # 2) (-3 # 2); seen (-6 # 5) (-6 # 5)] [[fin 5]; [fin 7]]
           [[fin 7]; [zero]; [zero]; [zero]] None
           (fun p => coord (engine 2 2 Social 1 0 1 false) (2 / inject_Z 1)
                           (psub p (seen 0 0)))).
  - reflexivity.
  - reflexivity.
  - constructor; [eexists; eexists; reflexivity|].
    constructor; [eexists; eexists; reflexivity|constructor].
  - reflexivity.
  - vm_compute. reflexivity.
  - vm_compute. split; [discriminate|reflexivity].
Defined.

Lemma last_write_last (k : Z) (z : vec) (l : list (Z * vec)) :
  last_write k (l ++ [(k, z)]) = Some z.
Proof.
  induction l as [|[i v] l IH]; cbn [app last_write].
  - rewrite Z.eqb_refl. reflexivity.
  - rewrite IH. reflexivity.
Qed.

Lemma combine_snoc {A B : Type} (l : list A) (x : A) :
  forall (l' : list B) (y : B),
    length l = length l' -> combine (l ++ [x]) (l' ++ [y]) = combine l l' ++ [(x, y)].
Proof.
  induction l as [|a l IH]; intros [|b l'] y H; simpl in H; try discriminate;
    [reflexivity|].
  cbn [app combine]. f_equal. apply IH. lia.
Qed.

(** X12.  The batched scatter, in general: when the last neighbour of an ego
    is out of range, sub-cell 0 of the dense grid of that ego is the zero
    row, whatever in-range neighbours were written there before. *)
Theorem batched_out_of_range_write_clears_cell_zero (e : Engine) (s : Q)
        (rel : list pos) (vals : matrix) (r : pos) (v : vec) :
  valid e ->
  Forall (fun q => observed q = true) (rel ++ [r]) -> length rel = length vals ->
  Forall (fits e) (vals ++ [v]) -> flagged e s r ->
  exists ivs occ,
    FastPooling.entries e s (rel ++ [r]) (vals ++ [v]) = inr ivs
    /\ FastPooling.dense_row e ivs = inr occ
    /\ nth 0 occ [] = repeat zero (Z.to_nat (pooling_dim e)).
Proof.
  intros Hv Hobs Hlen Hfit Hout. pose proof Hv as [Hcs [Hn [Hp Hd]]].
  assert (Hside : (0 < side e)%Z) by (unfold side; nia).
  assert (Hlen' : length (rel ++ [r]) = length (vals ++ [v]))
    by (rewrite !length_app; simpl; lia).
  rewrite (entries_placed e s _ _ Hobs Hlen').
  set (ivs := map (placed e s) (combine (rel ++ [r]) (vals ++ [v]))).
  assert (Hb : forall i u, In (i, u) ivs -> (0 <= i < side e * side e)%Z /\ fits e u).
  { intros i u Hin. unfold ivs in Hin. apply in_map_iff in Hin.
    destruct Hin as [[q x] [Heq Hq]].
    pose proof (in_combine_l _ _ _ _ Hq) as Hq1. pose proof (in_combine_r _ _ _ _ Hq) as Hq2.
    rewrite Forall_forall in Hobs, Hfit.
    pose proof (placed_ok e s q x Hside (Hobs q Hq1) (Hfit x Hq2)) as Hpl.
    rewrite Heq in Hpl. exact Hpl. }
  destruct (FastPooling_dense_row_ok e ivs Hv Hb) as [occ [E L]].
  exists ivs, occ. split; [reflexivity|]. split; [exact E|].
  unfold FastPooling.dense_row in E. rewrite cells_eq, zeros2_ok in E by lia. mred.
  pose proof (index_put_lookup _ _ [] _ _ E) as Hlook.
  rewrite repeat_length, Z2Nat.id in Hlook by lia.
  specialize (Hlook (fun i u Hin => proj1 (Hb i u Hin)) 0%Z ltac:(nia)).
  unfold ivs in Hlook. rewrite (combine_snoc rel r vals v Hlen), map_app in Hlook.
  cbn [map] in Hlook. unfold placed at 2 in Hlook. cbn [fst snd] in Hlook.
  unfold flagged in Hout. rewrite Hout, last_write_last in Hlook.
  rewrite broadcast_zero_like in Hlook.
  - injection Hlook as Hlook. symmetry. exact Hlook.
  - rewrite Forall_forall in Hfit. apply Hfit. apply in_or_app. right. left. reflexivity.
Qed.

Lemma batched_out_of_range_write_clears_cell_zero_witness :
  exists ivs occ,
    FastPooling.entries (engine 2 2 Social 1 0 1 false) (2 / inject_Z 1)
                        ([seen (-3 # 2) (-3 # 2)] ++ [seen 10 10])
                        ([[fin 5]] ++ [[fin 9]]) = inr ivs
    /\ FastPooling.dense_row (engine 2 2 Social 1 0 1 false) ivs = inr occ
    /\ nth 0 occ [] = repeat zero (Z.to_nat 1).
Proof.
  apply (batched_out_of_range_write_clears_cell_zero
           (engine 2 2 Social 1 0 1 false) (2 / inject_Z 1)
           [seen (-3 # 2) (-3 # 2)] [[fin 5]] (seen 10 10) [fin 9]).
  - repeat split; reflexivity.
  - repeat constructor.
  - reflexivity.
  - constructor; [left; reflexivity|]. constructor; [left; reflexivity|constructor].
  - vm_compute. reflexivity.
Defined.

(** ** A zero pool size *)

Lemma ego_descriptor_many (M : MathLib) (e : Engine) (hidden_state : matrix)
      (obs1 obs2 : list pos) (i : nat) :
  scene_ok e hidden_state obs1 obs2 -> (2 <= length obs2)%nat -> (i < length obs2)%nat ->
  exists vals,
    ego_descriptor M e hidden_state obs1 obs2 i
    = Pooling.occupancy M e (nth i obs2 Pooling.nan_pos)
                        (Some (select (one_cold i (length obs2)) obs2))
                        vals (ego_past e obs1 i)
    /\ match vals with
       | None => True
       | Some v => length v = length (select (one_cold i (length obs2)) obs2)
       end.
Proof.
  intros (Hobs & Hsoc & Hdir & Hfr) H2 Hi.
  assert (Hpast : front e = true ->
                  Pooling.item i obs1 = inr (nth i obs1 Pooling.nan_pos)).
  { intros Hf. destruct (Hfr Hf) as [Hl _]. apply item_nth. rewrite Hl. exact Hi. }
  assert (Hvel : type_ e = Directional ->
                 exists values, Pooling.relative_velocity obs1 obs2 i = inr values
                   /\ length values = length (select (one_cold i (length obs2)) obs2)).
  { intros Ht. destruct (relative_velocity_ok obs1 obs2 i (Hdir Ht) Hi)
      as [values [E [_ [Hl _]]]]. exists values. split; assumption. }
  assert (Hhid : type_ e = Social ->
                 masked (one_cold i (length obs2)) hidden_state
                 = inr (select (one_cold i (length obs2)) hidden_state)
                 /\ length (select (one_cold i (length obs2)) hidden_state)
                    = length (select (one_cold i (length obs2)) obs2)).
  { intros Ht. destruct (Hsoc Ht) as [Hl _]. split.
    - apply masked_same_length. rewrite one_cold_length. symmetry. exact Hl.
    - apply select_length_same. exact Hl. }
  unfold ego_descriptor, ego_past.
  destruct (Nat.eqb_spec (length obs2) 1); [lia|].
  destruct (front e) eqn:Ef; cbn [negb]; destruct (type_ e) eqn:Et.
  - exists None. unfold Pooling.front_occupancies_row.
    rewrite (Hpast eq_refl). split; [reflexivity|exact I].
  - unfold Pooling.front_directional_row.
    destruct (Hvel eq_refl) as [values [Ev Hl]]. rewrite Ev, (Hpast eq_refl).
    exists (Some values). split; [reflexivity|exact Hl].
  - unfold Pooling.front_social_row.
    destruct (Hhid eq_refl) as [Em Hl]. rewrite Em, (Hpast eq_refl).
    eexists (Some _). split; [reflexivity|exact Hl].
  - exists None. split; [reflexivity|exact I].
  - unfold Pooling.directional_row.
    destruct (Hvel eq_refl) as [values [Ev Hl]]. rewrite Ev.
    exists (Some values). split; [reflexivity|exact Hl].
  - unfold Pooling.social_row.
    destruct (Hhid eq_refl) as [Em Hl]. rewrite Em.
    eexists (Some _). split; [reflexivity|exact Hl].
Qed.

Lemma step_zero_pool_size (e : Engine) : pool_size e = 0%Z -> step e = inl ZeroDivisionError.
Proof. intros H. unfold step. rewrite H. reflexivity. Qed.

Lemma occupancy_zero_pool_size (M : MathLib) (e : Engine) (xy : pos) (others : list pos)
      (vals : option matrix) (past : option pos) :
  pool_size e = 0%Z -> observed xy = true -> others <> [] ->
  Forall (fun q => observed q = true) others ->
  match vals with None => True | Some v => length v = length others end ->
  (front e = true -> exists p, past = Some p) ->
  Pooling.occupancy M e xy (Some others) vals past = inl ZeroDivisionError.
Proof.
  intros Hp Hxy Hne Hobs Hvals Hpast.
  assert (Hsome : forall v, length v = length others ->
            Pooling.dense M e xy (Some others) (Some v) past = inl ZeroDivisionError).
  { intros v Hlen. unfold Pooling.dense. rewrite (observed_not_nan xy Hxy). cbn [orb].
    destruct (Nat.eqb_spec (length others) 0) as [E0|_];
      [destruct others; [congruence|discriminate]|]. mred.
    assert (Hall : forall x, In x others -> negb (isnan (fst x)) = true).
    { intros x Hx. rewrite Forall_forall in Hobs. rewrite (observed_not_nan x (Hobs x Hx)).
      reflexivity. }
    rewrite masked_same_length by (rewrite length_map; symmetry; exact Hlen). mred.
    pose proof (select_all others _ Hall) as S1.
    pose proof (select_all_of _ others v Hall (eq_sym Hlen)) as S2.
    plain_types. rewrite S1, S2.
    unfold Pooling.dense_observed, Pooling.grid_coordinates, Pooling.coordinate.
    plain_types.
    destruct (Nat.eqb_spec (length others) 0) as [E0|_];
      [destruct others; [congruence|discriminate]|].
    rewrite (step_zero_pool_size e Hp).
    destruct (front e); cbn [negb]; [|reflexivity].
    destruct (Hpast eq_refl) as [p ->]. reflexivity. }
  unfold Pooling.occupancy. destruct vals as [v|].
  - pose proof (Hsome v Hvals) as H. plain_types. rewrite H. reflexivity.
  - rewrite dense_default_values.
    pose proof (Hsome _ (repeat_length [one] (length others))) as H.
    plain_types. rewrite H. reflexivity.
Qed.

Lemma FastPooling_occupancy_zero_pool_size (e : Engine) (obs : list pos)
      (vals : option (list matrix)) :
  pool_size e = 0%Z -> (0 <= pooling_dim e)%Z -> (2 <= length obs)%nat ->
  FastPooling.occupancy e obs vals = inl ZeroDivisionError.
Proof.
  intros Hp Hd HN. unfold FastPooling.occupancy.
  destruct (Nat.eqb_spec (length obs) 1); [lia|].
  rewrite delete_diagonal_pairwise by (intros ->; simpl in HN; lia). mred.
  rewrite (step_zero_pool_size e Hp). destruct vals as [v|]; [reflexivity|].
  unfold ones2, full2.
  destruct (Z.ltb_spec (Z.of_nat (length obs) - 1) 0); [lia|].
  destruct (Z.ltb_spec (pooling_dim e) 0); [lia|]. reflexivity.
Qed.

(** X13.  [pool_size = 0] is stored by the constructor and fails at the
    first use: on a fully observed scene of two agents or more both engines
    raise ZeroDivisionError. *)
Theorem zero_pool_size_raises (M : MathLib) (e : Engine) (hidden_state : matrix)
        (obs1 obs2 : list pos) :
  pool_size e = 0%Z -> (0 < pooling_dim e)%Z -> (2 <= length obs2)%nat ->
  (scene_ok e hidden_state obs1 obs2 -> Forall (fun p => observed p = true) obs2 ->
   Pooling.grid M e hidden_state obs1 obs2 = inl ZeroDivisionError)
  /\ (full_scene e hidden_state obs1 obs2 ->
      FastPooling.grid e hidden_state obs1 obs2 = inl ZeroDivisionError).
Proof.
  intros Hp Hd HN. split.
  - intros Hs Hobs. rewrite grid_as_rows, seq_from_zero by lia.
    rewrite (mapM_first_raises _ _ _ ZeroDivisionError); [reflexivity|].
    destruct (ego_descriptor_many M e hidden_state obs1 obs2 0 Hs HN) as [vals [E Hl]];
      [lia|].
    rewrite E. apply occupancy_zero_pool_size; try assumption.
    + rewrite Forall_nth in Hobs. apply Hobs. lia.
    + intros E0. apply (f_equal (@length _)) in E0.
      rewrite (select_one_cold_length 0 (length obs2) obs2 eq_refl) in E0 by lia.
      simpl in E0. lia.
    + apply Forall_select. exact Hobs.
    + intros Hf. unfold ego_past. rewrite Hf. eexists. reflexivity.
  - intros (Hobs & Hsoc & Hdir). unfold FastPooling.grid, FastPooling.occupancies.
    destruct (type_ e) eqn:Et.
    + apply FastPooling_occupancy_zero_pool_size; [assumption|lia|assumption].
    + rewrite directional_as_occupancy by (auto; apply Hdir; reflexivity).
      apply FastPooling_occupancy_zero_pool_size; [assumption|lia|assumption].
    + destruct (Hsoc eq_refl) as [Hl Hw].
      rewrite (social_as_occupancy e hidden_state obs2 _ HN Hl Hw).
      apply FastPooling_occupancy_zero_pool_size; [assumption|lia|assumption].
Qed.

Lemma zero_pool_size_raises_witness :
  Pooling.grid axis_math (engine 2 2 Occupancy 0 0 1 false) [] [] [P 0 0; P 1 0]
  = inl ZeroDivisionError
  /\ FastPooling.grid (engine 2 2 Occupancy 0 0 1 false) [] [] [P 0 0; P 1 0]
     = inl ZeroDivisionError.
Proof.
  destruct (zero_pool_size_raises axis_math (engine 2 2 Occupancy 0 0 1 false) [] []
                                  [P 0 0; P 1 0] eq_refl eq_refl ltac:(simpl; lia))
    as [H1 H2].
  split.
  - apply H1; [|repeat constructor].
    split; [repeat constructor|]. split; [discriminate|]. split; discriminate.
  - apply H2. split; [repeat constructor|]. split; discriminate.
Defined.

(** ** Pooling as a sum *)



Lemma zrange_nonneg (k x : Z) : In x (zrange k) -> (0 <= x)%Z.
Proof.
  unfold zrange. intros H. apply in_map_iff in H. destruct H as [i [<- _]]. lia.
Qed.















(** ** The MLP pooling modules *)

Lemma combine_app_same {A B : Type} (l1 : list A) :
  forall (l1' : list B) (l2 : list A) (l2' : list B),
    length l1 = length l1' ->
    combine (l1 ++ l2) (l1' ++ l2') = combine l1 l1' ++ combine l2 l2'.
Proof.
  induction l1 as [|x l1 IH]; intros [|y l1'] l2 l2' H; simpl in H; try discriminate;
    [reflexivity|].
  cbn [app combine]. f_equal. apply IH. lia.
Qed.

Lemma max_step_length (acc row : vec) (s : nat) :
  length acc = s -> length row = s -> length (max_step acc row) = s.
Proof. intros Ha Hr. unfold max_step. rewrite length_map, length_combine. lia. Qed.

Lemma max_step_app (a a' b b' : vec) :
  length a = length a' -> max_step (a ++ b) (a' ++ b') = max_step a a' ++ max_step b b'.
Proof.
  intros H. unfold max_step. rewrite (combine_app_same a a' b b' H), map_app. reflexivity.
Qed.

Lemma fold_max_length (rows : matrix) (s : nat) :
  forall acc, length acc = s -> Forall (fun r => length r = s) rows ->
              length (fold_left max_step rows acc) = s.
Proof.
  induction rows as [|r rows IH]; intros acc Ha Hr; [exact Ha|].
  apply Forall_cons_iff in Hr. destruct Hr as [Hr Hrows]. cbn [fold_left].
  apply IH; [apply max_step_length; assumption|exact Hrows].
Qed.

Lemma fold_max_app (s : nat) (rows_a : matrix) :
  forall (rows_b : matrix) (acc_a acc_b : vec),
    length acc_a = s -> Forall (fun r => length r = s) rows_a ->
    length rows_a = length rows_b ->
    fold_left max_step (map (fun xy => fst xy ++ snd xy) (combine rows_a rows_b))
              (acc_a ++ acc_b)
    = fold_left max_step rows_a acc_a ++ fold_left max_step rows_b acc_b.
Proof.
  induction rows_a as [|a rows_a IH]; intros [|b rows_b] acc_a acc_b Ha Hr Hl;
    simpl in Hl; try discriminate; [reflexivity|].
  apply Forall_cons_iff in Hr. destruct Hr as [Hra Hr].
  cbn [combine map fold_left fst snd].
  rewrite max_step_app by (rewrite Ha, Hra; reflexivity).
  apply IH; [apply max_step_length; assumption|exact Hr|lia].
Qed.

Lemma max_rows_cat (s : nat) (rows_a rows_b : matrix) (p : vec) :
  Forall (fun r => length r = s) rows_a -> length rows_a = length rows_b ->
  max_rows (map (fun xy => fst xy ++ snd xy) (combine rows_a rows_b)) = inr p ->
  exists ma mb, max_rows rows_a = inr ma /\ max_rows rows_b = inr mb
                /\ length ma = s /\ p = ma ++ mb.
Proof.
  intros Hr Hl E.
  destruct rows_a as [|a rows_a], rows_b as [|b rows_b]; simpl in Hl; try discriminate.
  apply Forall_cons_iff in Hr. destruct Hr as [Ha Hr].
  cbn [combine map max_rows fst snd] in *. unfold ret in *. injection E as <-.
  exists (fold_left max_step rows_a a), (fold_left max_step rows_b b).
  split; [reflexivity|]. split; [reflexivity|]. split.
  - apply fold_max_length; assumption.
  - apply (fold_max_app s); [exact Ha|exact Hr|lia].
Qed.

Lemma mapM_combine_inv {A B C : Type} (f : A -> B -> res C) (l : list A) :
  forall (l' : list B) (r : list C) (i : nat) (da : A) (db : B) (dc : C),
    mapM (fun xy => f (fst xy) (snd xy)) (combine l l') = inr r ->
    length l = length l' -> (i < length l)%nat ->
    f (nth i l da) (nth i l' db) = inr (nth i r dc).
Proof.
  induction l as [|x l IH]; intros [|y l'] r i da db dc E Hl Hi; simpl in Hl, Hi;
    try discriminate; try lia.
  cbn [combine mapM fst snd] in E. destruct (f x y) as [err|z] eqn:Ez; [discriminate|].
  mred. destruct (mapM _ (combine l l')) as [err|zs] eqn:Ezs; [discriminate|]. mred.
  injection E as <-. destruct i as [|i]; [exact Ez|]. cbn [nth].
  apply (IH l' zs i da db dc Ezs); lia.
Qed.

Lemma mapM_inner_widths {A B : Type} (f : A -> res (list B)) (s : nat) (l : list A)
      (r : list (list B)) :
  (forall x y, f x = inr y -> length y = s) -> mapM f l = inr r ->
  Forall (fun y => length y = s) r.
Proof.
  intros Hf E. apply (mapM_Forall f _ l r E). intros x y _ Hy. apply (Hf x y Hy).
Qed.

(** X15.  [HiddenStateMLPPooling.forward]: when the spatial embedding has a
    fixed width [s], the part of [pooled] after the first [s] entries is
    the same for every agent, namely the entry-wise maximum of the embedded
    hidden states of all agents, the agent itself among them; a result
    also means one hidden state per agent. *)
Theorem hidden_states_are_pooled_over_all_agents (l : HiddenStateMLPPooling.Layers) (hidden_states : matrix)
        (obs : list pos) (p : matrix) (s : nat) :
  (forall x y, HiddenStateMLPPooling.spatial_embedding l x = inr y -> length y = s) ->
  HiddenStateMLPPooling.pooled l hidden_states obs = inr p ->
  exists hidden hmax,
    mapM (HiddenStateMLPPooling.hidden_embedding l) hidden_states = inr hidden
    /\ max_rows hidden = inr hmax
    /\ length hidden_states = length obs
    /\ length p = length obs
    /\ forall i, (i < length obs)%nat -> skipn s (nth i p []) = hmax.
Proof.
  intros Hs E. unfold HiddenStateMLPPooling.pooled in E. cbv zeta in E.
  destruct (mapM _ (HiddenStateMLPPooling.rel_obs obs)) as [err|sp] eqn:Esp; [discriminate|].
  mred. destruct (mapM (HiddenStateMLPPooling.hidden_embedding l) hidden_states) as [err|hidden] eqn:Eh;
    [discriminate|]. mred.
  destruct (cat_dim2 sp (repeat hidden (length hidden))) as [err|emb] eqn:Ec;
    [discriminate|]. mred.
  pose proof (mapM_length _ _ _ Esp) as Lsp.
  unfold HiddenStateMLPPooling.rel_obs in Lsp. rewrite length_map in Lsp.
  pose proof (mapM_length _ _ _ Eh) as Lh.
  unfold cat_dim2 in Ec. rewrite repeat_length in Ec. plain_types.
  revert Ec. destruct (Nat.eqb_spec (length sp) (length hidden)) as [Leq|];
    [|unfold raise; discriminate]. intros Ec.
  pose proof (mapM_length _ _ _ Ec) as Lemb.
  rewrite length_combine, repeat_length, <- Leq, Nat.min_id in Lemb.
  unfold max_dim1 in E.
  assert (Hne : emb <> []) by (intros ->; unfold raise in E; discriminate E).
  assert (E' : mapM max_rows emb = inr p) by (destruct emb; [congruence|exact E]).
  clear E. rename E' into E.
  pose proof (mapM_length _ _ _ E) as Lp.
  assert (Hrow : forall i, (i < length obs)%nat ->
                 exists ma mb, max_rows hidden = inr mb /\ length ma = s
                               /\ nth i p [] = ma ++ mb).
  { intros i Hi.
    pose proof (mapM_combine_inv cat_rows sp (repeat hidden (length hidden)) emb i
                                 [] [] [] Ec) as Hc.
    rewrite repeat_length in Hc. specialize (Hc Leq ltac:(plain_types; lia)).
    rewrite nth_repeat_lt in Hc by lia.
    pose proof (mapM_nth max_rows [] [] emb p i E ltac:(plain_types; lia)) as Hm.
    unfold cat_rows in Hc. plain_types. revert Hc.
    destruct (Nat.eqb_spec (length (nth i sp [])) (length hidden)) as [Lrow|];
      [|unfold raise; discriminate]. intros Hc.
    unfold ret in Hc. injection Hc as Hc. rewrite <- Hc in Hm.
    assert (Hw : Forall (fun r => length r = s) (nth i sp [])).
    { pose proof (mapM_nth _ [] [] _ sp i Esp ltac:(unfold HiddenStateMLPPooling.rel_obs; rewrite length_map; exact Hi)) as Hsi.
      apply (mapM_inner_widths _ s _ _ (fun x y H => Hs _ y H) Hsi). }
    destruct (max_rows_cat s _ _ _ Hw Lrow Hm) as [ma [mb [_ [Eb [Lma Hp]]]]].
    exists ma, mb. split; [exact Eb|]. split; [exact Lma|exact Hp]. }
  assert (HN : (0 < length obs)%nat).
  { destruct emb; [congruence|]. simpl in Lemb. plain_types. lia. }
  destruct (Hrow 0%nat HN) as [ma0 [hmax [Emax _]]].
  exists hidden, hmax. split; [reflexivity|]. split; [exact Emax|].
  split; [plain_types; lia|]. split; [plain_types; lia|].
  intros i Hi. destruct (Hrow i Hi) as [ma [mb [Eb [Lma Hp]]]].
  rewrite Hp, skipn_app, <- Lma, Nat.sub_diag, skipn_all. cbn [app skipn].
  rewrite Emax in Eb. injection Eb as ->. reflexivity.
Qed.

Lemma hidden_states_are_pooled_over_all_agents_witness :
  exists hidden hmax,
    mapM (HiddenStateMLPPooling.hidden_embedding
            {| HiddenStateMLPPooling.spatial_embedding := fun x => inr [nth 0 x zero; nth 1 x zero];
               HiddenStateMLPPooling.hidden_embedding := fun x => inr x;
               HiddenStateMLPPooling.out_projection := fun x => inr x |})
         [[fin 3]; [fin 5]] = inr hidden
    /\ max_rows hidden = inr hmax
    /\ length [[fin 3]; [fin 5]] = length [P 0 0; P 1 2]
    /\ length [[fin 1; fin 2; fin 5]; [fin 0; fin 0; fin 5]] = length [P 0 0; P 1 2]
    /\ forall i, (i < length [P 0 0; P 1 2])%nat ->
                 skipn 2 (nth i [[fin 1; fin 2; fin 5]; [fin 0; fin 0; fin 5]] []) = hmax.
Proof.
  apply (hidden_states_are_pooled_over_all_agents
           {| HiddenStateMLPPooling.spatial_embedding := fun x => inr [nth 0 x zero; nth 1 x zero];
              HiddenStateMLPPooling.hidden_embedding := fun x => inr x;
              HiddenStateMLPPooling.out_projection := fun x => inr x |}
           [[fin 3]; [fin 5]] [P 0 0; P 1 2]
           [[fin 1; fin 2; fin 5]; [fin 0; fin 0; fin 5]] 2).
  - intros x y H. injection H as <-. reflexivity.
  - vm_compute. reflexivity.
Defined.

(** X16.  [HiddenStateMLPPooling.forward] needs one hidden state per agent:
    when the layers accept their inputs and the numbers differ, the
    concatenation raises RuntimeError. *)
Theorem hidden_state_count_must_match (l : HiddenStateMLPPooling.Layers) (hidden_states : matrix)
        (obs : list pos) (spatial hidden : list matrix) (hidden_rows : matrix) :
  mapM (mapM (fun p => HiddenStateMLPPooling.spatial_embedding l (pos_row p))) (HiddenStateMLPPooling.rel_obs obs)
  = inr spatial ->
  mapM (HiddenStateMLPPooling.hidden_embedding l) hidden_states = inr hidden_rows ->
  length hidden_states <> length obs ->
  HiddenStateMLPPooling.forward l hidden_states obs = inl RuntimeError.
Proof.
  intros Es Eh Hne. unfold HiddenStateMLPPooling.forward, HiddenStateMLPPooling.pooled.
  cbv zeta. rewrite Es, Eh. mred.
  pose proof (mapM_length _ _ _ Es) as Ls.
  unfold HiddenStateMLPPooling.rel_obs in Ls. rewrite length_map in Ls.
  pose proof (mapM_length _ _ _ Eh) as Lh.
  unfold cat_dim2. rewrite repeat_length. plain_types.
  destruct (Nat.eqb_spec (length spatial) (length hidden_rows)); [lia|]. reflexivity.
Qed.

Lemma hidden_state_count_must_match_witness :
  HiddenStateMLPPooling.forward
    {| HiddenStateMLPPooling.spatial_embedding := fun x => inr x;
       HiddenStateMLPPooling.hidden_embedding := fun x => inr x;
       HiddenStateMLPPooling.out_projection := fun x => inr x |}
    [[fin 3]] [P 0 0; P 1 2] = inl RuntimeError.
Proof.
  apply (hidden_state_count_must_match
           {| HiddenStateMLPPooling.spatial_embedding := fun x => inr x;
       HiddenStateMLPPooling.hidden_embedding := fun x => inr x;
              HiddenStateMLPPooling.out_projection := fun x => inr x |}
           [[fin 3]] [P 0 0; P 1 2]
           [[[zero; zero]; [one; fin 2]]; [[fin (-1); fin (-2)]; [zero; zero]]] []
           [[fin 3]]).
  - vm_compute. reflexivity.
  - reflexivity.
  - simpl. lia.
Defined.



(** X18.  The two MLP pooling modules raise on a scene without agents,
    whatever the other argument: the maximum over the neighbours has
    nothing to reduce, or the shapes disagree before. *)
Theorem mlp_pooling_refuses_empty_scene (lh : HiddenStateMLPPooling.Layers)
        (ld : DirectionalMLPPooling.Layers) (hidden_states : matrix)
        (obs1 : list pos) :
  (exists err, HiddenStateMLPPooling.forward lh hidden_states [] = inl err)
  /\ (exists err, DirectionalMLPPooling.forward ld obs1 [] = inl err).
Proof.
  split.
  - unfold HiddenStateMLPPooling.forward, HiddenStateMLPPooling.pooled. cbv zeta.
    cbn [HiddenStateMLPPooling.rel_obs map mapM]. mred.
    destruct (mapM (HiddenStateMLPPooling.hidden_embedding lh) hidden_states) as [err|hidden];
      [eexists; reflexivity|]. mred.
    destruct hidden as [|h hidden]; eexists; reflexivity.
  - unfold DirectionalMLPPooling.forward, DirectionalMLPPooling.pooled,
      DirectionalMLPPooling.rel_directional. cbv zeta.
    cbn [DirectionalMLPPooling.rel_obs map mapM]. mred.
    destruct obs1 as [|p [|q obs1]]; eexists; reflexivity.
Qed.

(** X19.  The constructors of the MLP pooling modules, for positive
    sizes: an [mlp_dim] below [mlp_dim_spatial] raises RuntimeError (a
    layer of negative width); above it, the widths of the two embeddings
    add up to the input width of the projection, and [out_dim] is
    [hidden_dim] when it is left out or 0. *)
Theorem mlp_layer_sizes (a : MLPArgs) :
  let hidden_dim := default 128%Z (mlp_hidden_dim a) in
  let spatial := default 16%Z (mlp_mlp_dim_spatial a) in
  let out_dim := or_else (mlp_out_dim a) hidden_dim in
  (0 < hidden_dim)%Z -> (0 < spatial)%Z -> (0 < out_dim)%Z ->
  ((default 128%Z (mlp_mlp_dim a) < spatial)%Z ->
   HiddenStateMLPPooling.init a = inl RuntimeError)
  /\ ((spatial < default 128%Z (mlp_mlp_dim a))%Z ->
      exists m, HiddenStateMLPPooling.init a = inr m
                /\ spatial_size m = (2, spatial)%Z
                /\ inner_size m = (hidden_dim, default 128 (mlp_mlp_dim a) - spatial)%Z
                /\ projection_size m
                   = (snd (spatial_size m) + snd (inner_size m), out_dim)%Z
                /\ mlp_out m = out_dim)
  /\ ((default 32%Z (mlp_mlp_dim a) < spatial)%Z ->
      DirectionalMLPPooling.init a = inl RuntimeError)
  /\ ((spatial < default 32%Z (mlp_mlp_dim a))%Z ->
      exists m, DirectionalMLPPooling.init a = inr m
                /\ spatial_size m = (2, spatial)%Z
                /\ inner_size m = (2, default 32 (mlp_mlp_dim a) - spatial)%Z
                /\ projection_size m
                   = (snd (spatial_size m) + snd (inner_size m), out_dim)%Z
                /\ mlp_out m = out_dim).
Proof.
  intros hidden_dim spatial out_dim Hh Hs Ho.
  unfold HiddenStateMLPPooling.init, DirectionalMLPPooling.init, Linear_size, Linear_ok.
  cbv zeta. fold hidden_dim. fold spatial. fold out_dim.
  destruct (Z.leb_spec 0 spatial); [|lia]. cbn [andb Z.leb]. mred.
  destruct (Z.leb_spec 0 hidden_dim); [|lia].
  destruct (Z.leb_spec 0 out_dim); [|lia]. cbn [andb]. rewrite !andb_true_r.
  repeat split.
  - intros Hm. destruct (Z.leb_spec 0 (default 128%Z (mlp_mlp_dim a) - spatial)%Z); [lia|].
    reflexivity.
  - intros Hm. destruct (Z.leb_spec 0 (default 128%Z (mlp_mlp_dim a) - spatial)%Z); [|lia]. mred.
    destruct (Z.leb_spec 0 (default 128%Z (mlp_mlp_dim a))); [|lia]. mred.
    eexists. split; [reflexivity|]. cbn. repeat split. f_equal. lia.
  - intros Hm. destruct (Z.leb_spec 0 (default 32%Z (mlp_mlp_dim a) - spatial)%Z); [lia|].
    reflexivity.
  - intros Hm. destruct (Z.leb_spec 0 (default 32%Z (mlp_mlp_dim a) - spatial)%Z); [|lia]. mred.
    destruct (Z.leb_spec 0 (default 32%Z (mlp_mlp_dim a))); [|lia]. mred.
    eexists. split; [reflexivity|]. cbn. repeat split. f_equal. lia.
Qed.

Lemma mlp_layer_sizes_witness :
  HiddenStateMLPPooling.init {| mlp_hidden_dim := None; mlp_mlp_dim := Some 8%Z;
                                mlp_mlp_dim_spatial := None; mlp_out_dim := Some 0%Z |}
  = inl RuntimeError
  /\ exists m, DirectionalMLPPooling.init
                 {| mlp_hidden_dim := None; mlp_mlp_dim := None;
                    mlp_mlp_dim_spatial := None; mlp_out_dim := Some 0%Z |} = inr m
               /\ spatial_size m = (2, 16)%Z
               /\ inner_size m = (2, 32 - 16)%Z
               /\ projection_size m = (snd (spatial_size m) + snd (inner_size m), 128)%Z
               /\ mlp_out m = 128%Z.
Proof.
  split.
  - apply (mlp_layer_sizes {| mlp_hidden_dim := None; mlp_mlp_dim := Some 8%Z;
                              mlp_mlp_dim_spatial := None; mlp_out_dim := Some 0%Z |});
      simpl; lia.
  - apply (mlp_layer_sizes {| mlp_hidden_dim := None; mlp_mlp_dim := None;
                              mlp_mlp_dim_spatial := None; mlp_out_dim := Some 0%Z |});
      simpl; lia.
Defined.

(** X20.  [DirectionalMLPPooling.forward] subtracts the two scenes: with
    two agents or more, a scene [obs1] whose number of rows is neither that
    of [obs2] nor one raises RuntimeError. *)
Theorem directional_mlp_needs_matching_scenes (l : DirectionalMLPPooling.Layers) (obs1 obs2 : list pos)
        (spatial : list matrix) :
  mapM (mapM (fun p => DirectionalMLPPooling.spatial_embedding l (pos_row p))) (DirectionalMLPPooling.rel_obs obs2)
  = inr spatial ->
  (2 <= length obs2)%nat -> length obs1 <> length obs2 -> length obs1 <> 1%nat ->
  DirectionalMLPPooling.forward l obs1 obs2 = inl RuntimeError.
Proof.
  intros Es HN Hne H1.
  unfold DirectionalMLPPooling.forward, DirectionalMLPPooling.pooled,
    DirectionalMLPPooling.rel_directional. cbv zeta.
  rewrite Es, (sub_rows_mismatch obs2 obs1 HN Hne H1). reflexivity.
Qed.

Lemma directional_mlp_needs_matching_scenes_witness :
  DirectionalMLPPooling.forward
    {| DirectionalMLPPooling.spatial_embedding := fun x => inr x;
       DirectionalMLPPooling.directional_embedding := fun x => inr x;
       DirectionalMLPPooling.out_projection := fun x => inr x |}
    [P 0 0; P 1 0; P 2 0] [P 0 1; P 2 0] = inl RuntimeError.
Proof.
  apply (directional_mlp_needs_matching_scenes
           {| DirectionalMLPPooling.spatial_embedding := fun x => inr x;
       DirectionalMLPPooling.directional_embedding := fun x => inr x;
              DirectionalMLPPooling.out_projection := fun x => inr x |}
           [P 0 0; P 1 0; P 2 0] [P 0 1; P 2 0]
           [[[zero; zero]; [fin 2; fin (-1)]]; [[fin (-2); fin 1]; [zero; zero]]]).
  - vm_compute. reflexivity.
  - simpl. lia.
  - simpl. lia.
  - simpl. lia.
Defined.

(** ** A blur of width one *)

Lemma add_blur1 (acc x : num) : add acc (blur1 x) = add acc x.
Proof.
  destruct acc as [a|], x as [q|]; try reflexivity.
  unfold blur1, divq, add, lift2, zero. f_equal. apply Qred_complete.
  rewrite !Qred_correct. change (inject_Z (1 * 1)) with 1%Q. field.
Qed.

Lemma fold_add_blur1 (l : vec) :
  forall acc, fold_left add (map blur1 l) acc = fold_left add l acc.
Proof.
  induction l as [|x l IH]; intros acc; [reflexivity|].
  cbn [map fold_left]. rewrite add_blur1. apply IH.
Qed.

Lemma sum_blur1 (l : vec) : sum (map blur1 l) = sum l.
Proof. apply fold_add_blur1. Qed.

Lemma map_flat_map {A B C : Type} (f : B -> C) (g : A -> list B) (l : list A) :
  map f (flat_map g l) = flat_map (fun a => map f (g a)) l.
Proof.
  induction l as [|a l IH]; [reflexivity|].
  cbn [flat_map]. rewrite map_app, IH. reflexivity.
Qed.

Lemma nth_zrange (k : nat) (i : nat) : (i < k)%nat -> nth i (zrange (Z.of_nat k)) 0%Z = Z.of_nat i.
Proof.
  intros H. unfold zrange. rewrite Nat2Z.id.
  change 0%Z with (Z.of_nat 0). rewrite map_nth, seq_nth by exact H. reflexivity.
Qed.

Lemma get2_blur_grid (r c : nat) (g : matrix) (i j : Z) :
  shaped r c g -> get2 (blur_grid r c g) i j = blur1 (get2 g i j).
Proof.
  intros [Hl Hw]. unfold get2.
  destruct ((i <? 0) || (j <? 0))%Z eqn:E; [reflexivity|].
  apply orb_false_iff in E. destruct E as [Ei Ej].
  apply Z.ltb_ge in Ei. apply Z.ltb_ge in Ej.
  unfold blur_grid.
  destruct (Nat.lt_ge_cases (Z.to_nat i) r) as [Hi|Hi].
  - rewrite (nth_indep _ [] (map (fun j0 => blur1 (get2 g 0 j0)) (zrange (Z.of_nat c))))
      by (rewrite length_map, zrange_length; lia).
    rewrite (map_nth (fun i0 => map (fun j0 => blur1 (get2 g i0 j0)) (zrange (Z.of_nat c)))
                     (zrange (Z.of_nat r)) 0%Z).
    rewrite nth_zrange by exact Hi.
    destruct (Nat.lt_ge_cases (Z.to_nat j) c) as [Hj|Hj].
    + rewrite (nth_indep _ zero (blur1 (get2 g (Z.of_nat (Z.to_nat i)) 0)))
        by (rewrite length_map, zrange_length; lia).
      rewrite (map_nth (fun j0 => blur1 (get2 g (Z.of_nat (Z.to_nat i)) j0))
                       (zrange (Z.of_nat c)) 0%Z).
      rewrite nth_zrange by exact Hj. rewrite !Z2Nat.id by lia.
      unfold get2. destruct (Z.ltb_spec i 0); [lia|]. destruct (Z.ltb_spec j 0); [lia|].
      reflexivity.
    + rewrite (nth_overflow (map _ (zrange (Z.of_nat c))))
        by (rewrite length_map, zrange_length; lia).
      rewrite (nth_overflow (nth (Z.to_nat i) g [])); [reflexivity|].
      rewrite Forall_forall in Hw. rewrite (Hw (nth (Z.to_nat i) g [])); [exact Hj|].
      apply nth_In. lia.
  - rewrite (nth_overflow (map _ (zrange (Z.of_nat r))))
      by (rewrite length_map, zrange_length; lia).
    rewrite (nth_overflow g) by lia. destruct (Z.to_nat j); reflexivity.
Qed.

Lemma window_blur_grid (r c : nat) (g : matrix) (k s p i j : Z) :
  shaped r c g -> window (blur_grid r c g) k s p i j = window g k s p i j.
Proof.
  intros Hg. unfold window.
  etransitivity; [|apply sum_blur1]. f_equal.
  rewrite map_flat_map. apply flat_map_ext. intros a. rewrite map_map.
  apply map_ext. intros b. apply get2_blur_grid. exact Hg.
Qed.

Lemma avg_pool2d_one (g : matrix) (r c : nat) :
  shaped r c g -> (0 < r)%nat -> (0 < c)%nat ->
  avg_pool2d 1 1 (Z.quot 1 2) g = inr (blur_grid r c g).
Proof.
  intros Hg Hr Hc. change (Z.quot 1 2) with 0%Z.
  destruct (avg_pool2d_ok 1 1 0 g r c Hg Hr) as [g' [E [-> _]]]; try lia.
  rewrite E. f_equal. unfold blur_grid.
  replace ((Z.of_nat r + 2 * 0 - 1) / 1 + 1)%Z with (Z.of_nat r)
    by (rewrite Z.div_1_r; lia).
  replace ((Z.of_nat c + 2 * 0 - 1) / 1 + 1)%Z with (Z.of_nat c)
    by (rewrite Z.div_1_r; lia).
  apply map_ext_in. intros i Hi. apply map_ext_in. intros j Hj.
  apply zrange_nonneg in Hi. apply zrange_nonneg in Hj.
  unfold blur1, window. change (zrange 1) with [0%Z]. cbn [map flat_map app].
  unfold sum. cbn [fold_left].
  replace (i * 1 + 0 - 0)%Z with i by lia. replace (j * 1 + 0 - 0)%Z with j by lia.
  reflexivity.
Qed.

Lemma blur_grid_shaped (r c : nat) (g : matrix) : shaped r c (blur_grid r c g).
Proof.
  split.
  - unfold blur_grid. rewrite length_map, zrange_length. lia.
  - apply Forall_forall. intros row Hin. unfold blur_grid in Hin.
    apply in_map_iff in Hin. destruct Hin as [i [<- _]].
    rewrite length_map, zrange_length. lia.
Qed.

Lemma lp_pool2d_1_blur_grid (k : Z) (r c : nat) (g : matrix) :
  shaped r c g -> (0 < r)%nat ->
  lp_pool2d_1 k (blur_grid r c g) = lp_pool2d_1 k g.
Proof.
  intros Hg Hr. unfold lp_pool2d_1, avg_pool2d. cbv zeta.
  pose proof (shaped_hd r c g Hg Hr) as Hh.
  pose proof (shaped_hd r c _ (blur_grid_shaped r c g) Hr) as Hh'.
  destruct Hg as [Hl Hw]. destruct (blur_grid_shaped r c g) as [Hl' _].
  plain_types. rewrite Hh, Hh', Hl, Hl'.
  destruct ((k <=? 0) || (k <=? 0) || (0 <? 0) || (k <? 2 * 0))%Z; [reflexivity|].
  destruct ((Z.of_nat r + 2 * 0 - k <? 0) || (Z.of_nat c + 2 * 0 - k <? 0))%Z;
    [reflexivity|].
  mred. do 2 f_equal. apply map_ext. intros i. apply map_ext. intros j.
  rewrite (window_blur_grid r c g); [reflexivity|]. split; assumption.
Qed.

Lemma pooled_blur_one (e : Engine) (f : bool) (occ : matrix) :
  Pooling.pooled (with_front_blur e f 1) occ = Pooling.pooled (with_front_blur e f 0) occ.
Proof.
  unfold Pooling.pooled.
  change (blur_size (with_front_blur e f 1)) with 1%Z.
  change (blur_size (with_front_blur e f 0)) with 0%Z.
  change (pooling_dim (with_front_blur e f 1)) with (pooling_dim e).
  change (pooling_dim (with_front_blur e f 0)) with (pooling_dim e).
  change (side (with_front_blur e f 1)) with (side e).
  change (side (with_front_blur e f 0)) with (side e).
  cbn [Z.eqb]. cbv iota.
  destruct (view_grids (pooling_dim e) (side e) occ) as [err|gs] eqn:E; [reflexivity|].
  mred.
  assert (Hok : (0 < side e)%Z /\ Forall (shaped (Z.to_nat (side e)) (Z.to_nat (side e))) gs).
  { unfold view_grids in E.
    destruct (Z.leb_spec (side e) 0) as [|Hs]; [discriminate|].
    destruct (Z.ltb_spec (pooling_dim e) 0) as [|Hd]; [discriminate|]. cbn [orb] in E.
    destruct (Z.eqb_spec (Z.of_nat (length occ)) (side e * side e)) as [Hl|];
      [|discriminate].
    split; [exact Hs|].
    destruct (view_grids_ok (pooling_dim e) (side e) occ Hs Hd Hl) as [gs' [E' [_ [_ Hsh]]]].
    unfold view_grids in E'.
    destruct (Z.leb_spec (side e) 0); [lia|].
    destruct (Z.ltb_spec (pooling_dim e) 0); [lia|]. cbn [orb] in E'.
    rewrite Hl, Z.eqb_refl in E'. rewrite E in E'. injection E' as <-. exact Hsh. }
  destruct Hok as [Hs Hsh].
  rewrite (mapM_inr _ (blur_grid (Z.to_nat (side e)) (Z.to_nat (side e)))).
  - mred. unfold pool_flat.
    change (pool_size (with_front_blur e f 1)) with (pool_size e).
    change (pool_size (with_front_blur e f 0)) with (pool_size e).
    destruct gs as [|g0 gs0] eqn:Eg; [reflexivity|]. rewrite <- Eg in *.
    replace (mapM (lp_pool2d_1 (pool_size e))
                  (map (blur_grid (Z.to_nat (side e)) (Z.to_nat (side e))) gs))
      with (mapM (lp_pool2d_1 (pool_size e)) gs).
    + rewrite Eg. reflexivity.
    + rewrite mapM_map. apply mapM_ext. intros g Hin. symmetry.
      apply lp_pool2d_1_blur_grid; [|lia].
      rewrite Forall_forall in Hsh. apply Hsh. exact Hin.
  - intros g Hin. apply avg_pool2d_one; [|lia|lia].
    rewrite Forall_forall in Hsh. apply Hsh. exact Hin.
Qed.

Lemma occupancy_blur_one (M : MathLib) (e : Engine) (f : bool) (xy : pos)
      (others : option (list pos)) (vals : option matrix) (past : option pos) :
  Pooling.occupancy M (with_front_blur e f 1) xy others vals past
  = Pooling.occupancy M (with_front_blur e f 0) xy others vals past.
Proof.
  unfold Pooling.occupancy.
  change (Pooling.dense M (with_front_blur e f 1) xy others vals past)
    with (Pooling.dense M (with_front_blur e f 0) xy others vals past).
  destruct (Pooling.dense M (with_front_blur e f 0) xy others vals past) as [err|[occ|]];
    [reflexivity| |reflexivity].
  mred. apply pooled_blur_one.
Qed.

Lemma ego_descriptor_blur_one (M : MathLib) (e : Engine) (f : bool)
      (hidden_state : matrix) (obs1 obs2 : list pos) (i : nat) :
  ego_descriptor M (with_front_blur e f 1) hidden_state obs1 obs2 i
  = ego_descriptor M (with_front_blur e f 0) hidden_state obs1 obs2 i.
Proof.
  unfold ego_descriptor, Pooling.occupancies_row, Pooling.directional_row,
    Pooling.social_row, Pooling.front_occupancies_row, Pooling.front_directional_row,
    Pooling.front_social_row.
  change (front (with_front_blur e f 1)) with f.
  change (front (with_front_blur e f 0)) with f.
  change (type_ (with_front_blur e f 1)) with (type_ e).
  change (type_ (with_front_blur e f 0)) with (type_ e).
  destruct f, (type_ e); cbn [negb];
    repeat match goal with
           | |- context [length obs2 =? 1] => destruct (length obs2 =? 1)%nat
           | |- context [Pooling.item i obs1] => destruct (Pooling.item i obs1); mred
           | |- context [Pooling.relative_velocity obs1 obs2 i] =>
               destruct (Pooling.relative_velocity obs1 obs2 i); mred
           | |- context [masked (one_cold i (length obs2)) hidden_state] =>
               destruct (masked (one_cold i (length obs2)) hidden_state); mred
           end;
    try reflexivity; apply occupancy_blur_one.
Qed.

(** X21.  A blur of width one changes nothing: the per-agent engine with
    [blur_size = 1] returns what it returns with [blur_size = 0], on every
    input, error cases included. *)
Theorem blur_of_width_one_changes_nothing (M : MathLib) (e : Engine) (f : bool)
        (hidden_state : matrix) (obs1 obs2 : list pos) :
  Pooling.forward M (with_front_blur e f 1) hidden_state obs1 obs2
  = Pooling.forward M (with_front_blur e f 0) hidden_state obs1 obs2.
Proof.
  unfold Pooling.forward. rewrite !grid_as_rows.
  rewrite (mapM_ext _ (ego_descriptor M (with_front_blur e f 0) hidden_state obs1 obs2));
    [reflexivity|].
  intros i _. apply ego_descriptor_blur_one.
Qed.


(** ** Occupancy as a count *)






















(** ** The shape of the MLP pooling *)

Lemma sub_rows_length (a b vel : list pos) :
  sub_rows a b = inr vel ->
  (length a = length b /\ length vel = length a)
  \/ (length b = 1%nat /\ length vel = length a)
  \/ (length a = 1%nat /\ length vel = length b).
Proof.
  unfold sub_rows. destruct (Nat.eqb_spec (length a) (length b)) as [E|E].
  - intros H. injection H as <-. left. split; [exact E|].
    rewrite length_map, length_combine. lia.
  - destruct a as [|x [|x' a]], b as [|y [|y' b]]; try discriminate;
      intros H; injection H as <-; cbn [map length]; rewrite ?length_map; auto.
Qed.

Lemma cat_dim2_length (a b c : list matrix) :
  cat_dim2 a b = inr c -> length a = length b /\ length c = length a.
Proof.
  unfold cat_dim2. destruct (Nat.eqb_spec (length a) (length b)) as [E|]; [|discriminate].
  intros H. apply mapM_length in H. rewrite length_combine in H. split; [exact E|lia].
Qed.

Lemma max_dim1_length (t : list matrix) (p : matrix) :
  max_dim1 t = inr p -> length p = length t /\ t <> [].
Proof.
  unfold max_dim1. destruct t as [|x t]; [discriminate|]. intros H.
  apply mapM_length in H. split; [exact H|discriminate].
Qed.

(** X23.  A result of an MLP pooling module has one row per agent, and
    means that the scene was not empty and that the other argument had
    the matching number of rows: one hidden state per agent, or an [obs1]
    of as many rows as [obs2] or of a single row. *)
Theorem mlp_pooling_returns_one_row_per_agent
        (lh : HiddenStateMLPPooling.Layers) (ld : DirectionalMLPPooling.Layers)
        (hidden_states : matrix) (obs1 obs2 : list pos) (out : matrix) :
  (HiddenStateMLPPooling.forward lh hidden_states obs2 = inr out ->
   length out = length obs2 /\ length hidden_states = length obs2 /\ obs2 <> [])
  /\ (DirectionalMLPPooling.forward ld obs1 obs2 = inr out ->
      length out = length obs2 /\ obs2 <> []
      /\ (length obs1 = length obs2 \/ length obs1 = 1%nat)).
Proof.
  split.
  - unfold HiddenStateMLPPooling.forward, HiddenStateMLPPooling.pooled. cbv zeta.
    destruct (mapM _ (HiddenStateMLPPooling.rel_obs obs2)) as [err|sp] eqn:Es; [discriminate|].
    mred. destruct (mapM (HiddenStateMLPPooling.hidden_embedding lh) hidden_states)
      as [err|hidden] eqn:Eh; [discriminate|]. mred.
    destruct (cat_dim2 sp _) as [err|emb] eqn:Ec; [discriminate|]. mred.
    destruct (max_dim1 emb) as [err|p] eqn:Em; [discriminate|]. mred. intros Eo.
    apply mapM_length in Es, Eh, Eo.
    unfold HiddenStateMLPPooling.rel_obs in Es. rewrite length_map in Es.
    apply cat_dim2_length in Ec. rewrite repeat_length in Ec. destruct Ec as [Ec1 Ec2].
    apply max_dim1_length in Em. destruct Em as [Em1 Em2].
    plain_types. repeat split; try lia.
    intros ->. apply Em2. destruct emb; [reflexivity|]. simpl in *. lia.
  - unfold DirectionalMLPPooling.forward, DirectionalMLPPooling.pooled,
      DirectionalMLPPooling.rel_directional. cbv zeta.
    destruct (mapM _ (DirectionalMLPPooling.rel_obs obs2)) as [err|sp] eqn:Es; [discriminate|].
    mred. destruct (sub_rows obs2 obs1) as [err|vel] eqn:Ev; [discriminate|]. mred.
    destruct (mapM _ (map _ vel)) as [err|dir] eqn:Ed; [discriminate|]. mred.
    destruct (cat_dim2 sp dir) as [err|emb] eqn:Ec; [discriminate|]. mred.
    destruct (max_dim1 emb) as [err|p] eqn:Em; [discriminate|]. mred. intros Eo.
    apply mapM_length in Es, Ed, Eo.
    unfold DirectionalMLPPooling.rel_obs in Es. rewrite length_map in Es, Ed.
    apply cat_dim2_length in Ec. destruct Ec as [Ec1 Ec2].
    apply max_dim1_length in Em. destruct Em as [Em1 Em2].
    apply sub_rows_length in Ev.
    assert (Hne : obs2 <> []).
    { intros ->. apply Em2. destruct emb; [reflexivity|]. simpl in *. plain_types. lia. }
    plain_types. split; [lia|]. split; [exact Hne|].
    destruct Ev as [[E1 E2]|[[E1 E2]|[E1 E2]]]; lia.
Qed.

Lemma mlp_pooling_returns_one_row_per_agent_witness :
  length [[fin 1; fin 2; fin 5]; [fin 0; fin 0; fin 5]] = length [P 0 0; P 1 2]
  /\ length [[fin 3]; [fin 5]] = length [P 0 0; P 1 2]
  /\ [P 0 0; P 1 2] <> [].
Proof.
  apply (proj1 (mlp_pooling_returns_one_row_per_agent
                  {| HiddenStateMLPPooling.spatial_embedding := fun x => inr x;
                     HiddenStateMLPPooling.hidden_embedding := fun x => inr x;
                     HiddenStateMLPPooling.out_projection := fun x => inr x |}
                  {| DirectionalMLPPooling.spatial_embedding := fun x => inr x;
                     DirectionalMLPPooling.directional_embedding := fun x => inr x;
                     DirectionalMLPPooling.out_projection := fun x => inr x |}
                  [[fin 3]; [fin 5]] [] [P 0 0; P 1 2]
                  [[fin 1; fin 2; fin 5]; [fin 0; fin 0; fin 5]])).
  vm_compute. reflexivity.
Defined.
